(** * The rai-ngan-wah area helpers of the tax-map viewer

    A shallow embedding of the area helpers of [src/components/TaxMapView.js]
    ([parseAreaToWah], [wahToAreaStr], [parseAreaParts], [partsToStr],
    [normalizeAreaStr]) and of the allocation logic of its [LandUsePopup]
    component, together with the part of the JavaScript runtime they rely on:
    dynamically typed values, [String.prototype.split], [parseFloat],
    [Number::toString], [Math.floor] and [Math.round].

    Numbers.  A JavaScript number is NaN, one of the two infinities, or a
    finite value.  Finite values are modelled by canonical rationals and the
    arithmetic on them is exact: the rounding of binary64 to 53 bits and its
    overflow to an infinity are not part of the model, and the two zeros of
    binary64 are one value (both are falsy and both print as [0]).

    Strings.  A string is a [string] of 8-bit code units.

    Further on come the row of three text fields ([AreaInput]), plain JSON
    data with [sanitizeGeoJSON] and [normalizeLUFull], the list of
    unassigned parcels and [bulkAssignLandUse], the handlers of the layer
    list, and the pages of the attribute table. *)

From Stdlib Require Import ZArith QArith Qcanon Qround Qabs Qpower Lqa.
From Stdlib Require Import Ascii String List Lia Znumtheory Zdivisibility.
From stdpp Require Import gmap strings.

Open Scope Z_scope.

(** ** The JavaScript runtime *)

Module JS.

(** *** Numbers *)

Inductive number : Type :=
  | NaN
  | PInf
  | NInf
  | Num (q : Qc).

Definition of_Z (z : Z) : number := Num (Q2Qc (inject_Z z)).

Definition zero : number := of_Z 0.

Definition Qc_sign (q : Qc) : comparison := (Qcompare q 0)%Q.

(** [x + y] *)
Definition add (x y : number) : number :=
  match x, y with
  | NaN, _ | _, NaN => NaN
  | PInf, NInf | NInf, PInf => NaN
  | PInf, _ | _, PInf => PInf
  | NInf, _ | _, NInf => NInf
  | Num p, Num q => Num (p + q)%Qc
  end.

(** [-x] *)
Definition neg (x : number) : number :=
  match x with
  | NaN => NaN
  | PInf => NInf
  | NInf => PInf
  | Num q => Num (- q)%Qc
  end.

(** [x - y] *)
Definition sub (x y : number) : number := add x (neg y).

Definition inf_of_sign (c : comparison) : number :=
  match c with
  | Gt => PInf
  | Lt => NInf
  | Eq => NaN
  end.

Definition flip (c : comparison) : comparison := CompOpp c.

(** [x * y]: an infinity times zero is NaN. *)
Definition mul (x y : number) : number :=
  match x, y with
  | NaN, _ | _, NaN => NaN
  | PInf, PInf | NInf, NInf => PInf
  | PInf, NInf | NInf, PInf => NInf
  | PInf, Num q | Num q, PInf => inf_of_sign (Qc_sign q)
  | NInf, Num q | Num q, NInf => inf_of_sign (flip (Qc_sign q))
  | Num p, Num q => Num (p * q)%Qc
  end.

(** [x / y].  The model has one zero, the positive one: a finite non-zero
    value divided by zero is the infinity of the sign of the dividend. *)
Definition div (x y : number) : number :=
  match x, y with
  | NaN, _ | _, NaN => NaN
  | (PInf | NInf), (PInf | NInf) => NaN
  | PInf, Num q =>
      match Qc_sign q with Lt => NInf | _ => PInf end
  | NInf, Num q =>
      match Qc_sign q with Lt => PInf | _ => NInf end
  | Num _, (PInf | NInf) => zero
  | Num p, Num q =>
      match Qc_sign q with
      | Eq => inf_of_sign (Qc_sign p)
      | _ => Num (p / q)%Qc
      end
  end.

(** [x < y], false as soon as one side is NaN. *)
Definition lt (x y : number) : bool :=
  match x, y with
  | NaN, _ | _, NaN => false
  | _, NInf => false
  | NInf, _ => true
  | PInf, _ => false
  | Num _, PInf => true
  | Num p, Num q => match (p ?= q)%Q with Lt => true | _ => false end
  end.

(** [x <= y] *)
Definition le (x y : number) : bool :=
  match x, y with
  | NaN, _ | _, NaN => false
  | NInf, _ => true
  | _, PInf => true
  | _, NInf => false
  | PInf, _ => false
  | Num p, Num q => match (p ?= q)%Q with Gt => false | _ => true end
  end.

(** [x > y] and [x >= y] *)
Definition gt (x y : number) : bool := lt y x.

(** [x === y] on numbers: NaN is equal to nothing. *)
Definition strict_eq (x y : number) : bool :=
  match x, y with
  | PInf, PInf | NInf, NInf => true
  | Num p, Num q => Qeq_bool p q
  | _, _ => false
  end.

(** ToBoolean on a number: NaN and zero are falsy. *)
Definition truthy_num (x : number) : bool :=
  match x with
  | NaN => false
  | Num q => negb (Qeq_bool q 0)
  | _ => true
  end.

(** [x || 0] for a number [x]. *)
Definition or_zero (x : number) : number :=
  if truthy_num x then x else zero.

(** [Math.floor] *)
Definition Math_floor (x : number) : number :=
  match x with
  | Num q => of_Z (Qfloor q)
  | _ => x
  end.

(** [Math.round]: the integer nearest to [x], ties going up, which is
    [floor (x + 1/2)]. *)
Definition Math_round (x : number) : number :=
  match x with
  | Num q => of_Z (Qfloor (q + (1 # 2)))
  | _ => x
  end.


(** *** Strings *)

(** [s.split(sep)] for a one-character separator: the pieces between the
    occurrences of [sep]; a string without [sep] (the empty one too) gives a
    single piece. *)
Fixpoint split (sep : ascii) (s : string) : list string :=
  match s with
  | EmptyString => [EmptyString]
  | String c t =>
      if Ascii.eqb c sep then EmptyString :: split sep t
      else match split sep t with
           | p :: ps => String c p :: ps
           | [] => [String c EmptyString]
           end
  end.

(** The white space that [parseFloat] skips, among 8-bit code units: TAB,
    LF, VT, FF, CR, SP and NBSP. *)
Definition is_whitespace (c : ascii) : bool :=
  let n := N_of_ascii c in
  ((9 <=? n) && (n <=? 13) || (n =? 32) || (n =? 160))%N.

Fixpoint trim_start (s : string) : string :=
  match s with
  | String c t => if is_whitespace c then trim_start t else s
  | EmptyString => s
  end.

(** *** Decimal digits *)

Definition digit_of (c : ascii) : option N :=
  let n := N_of_ascii c in
  if ((48 <=? n) && (n <=? 57))%N then Some (n - 48)%N else None.

Definition digit_char (d : N) : ascii := ascii_of_N (48 + d).

(** The number a list of digits denotes, most significant digit first. *)
Definition of_digits (ds : list N) : N :=
  fold_left (fun acc d => 10 * acc + d)%N ds 0%N.

Fixpoint digits_str (ds : list N) : string :=
  match ds with
  | [] => EmptyString
  | d :: r => String (digit_char d) (digits_str r)
  end.

Fixpoint to_digits_aux (fuel : nat) (n : N) (acc : list N) : list N :=
  match fuel with
  | O => n :: acc
  | S f =>
      if (n <? 10)%N then n :: acc
      else to_digits_aux f (n / 10)%N ((n mod 10)%N :: acc)
  end.

(** The decimal digits of [n], without leading zeros ([0] has the one
    digit 0).  A number has no more decimal digits than bits. *)
Definition to_digits (n : N) : list N :=
  to_digits_aux (N.to_nat (N.size n)) n [].

(** The longest run of decimal digits at the start of [s], and the rest. *)
Fixpoint take_digits (s : string) : list N * string :=
  match s with
  | String c t =>
      match digit_of c with
      | Some d => let (ds, r) := take_digits t in (d :: ds, r)
      | None => ([], s)
      end
  | EmptyString => ([], s)
  end.

(** *** parseFloat *)

(** [m * 10^e] *)
Definition dec_value (m : N) (e : Z) : Qc :=
  Q2Qc (inject_Z (Z.of_N m) * Qpower (inject_Z 10) e).

Definition parse_sign (s : string) : bool * string :=
  match s with
  | String "-"%char t => (true, t)
  | String "+"%char t => (false, t)
  | _ => (false, s)
  end.

(** ExponentPart: [e] or [E], an optional sign and at least one digit; when
    there is none, the value has no exponent part. *)
Definition parse_exponent (s : string) : Z :=
  match s with
  | String c t =>
      if Ascii.eqb c "e" || Ascii.eqb c "E" then
        let (minus, t') := parse_sign t in
        let (ds, _) := take_digits t' in
        match ds with
        | [] => 0
        | _ => if minus then - Z.of_N (of_digits ds) else Z.of_N (of_digits ds)
        end
      else 0
  | EmptyString => 0
  end.

(** The longest prefix of [s] that is a StrUnsignedDecimalLiteral:
    [Infinity], or digits with an optional fraction and exponent, or a
    fraction that starts with the dot.  [None] when no prefix is one. *)
Definition parse_unsigned (s : string) : option number :=
  if String.prefix "Infinity" s then Some PInf
  else
    let (ip, r1) := take_digits s in
    let (fp, r2) :=
      match r1 with
      | String "."%char t => take_digits t
      | _ => ([], r1)
      end in
    match ip, fp with
    | [], [] => None
    | _, _ =>
        let ex := parse_exponent r2 in
        Some (Num (dec_value (of_digits (ip ++ fp))
                             (ex - Z.of_nat (length fp))))
    end.

(** [parseFloat(s)] for a string [s]. *)
Definition parseFloat (s : string) : number :=
  let t := trim_start s in
  let (minus, r) := parse_sign t in
  match parse_unsigned r with
  | Some x => if minus then neg x else x
  | None => NaN
  end.

(** *** Number::toString *)

(** [n / d * 10^k] brought to an integer: each round takes the common
    factor of the denominator with 10 out of it.  [None] when the
    denominator has another prime factor than 2 and 5. *)
Fixpoint scale_loop (fuel : nat) (n d k : Z) : option (Z * Z) :=
  if d =? 1 then Some (n, k)
  else match fuel with
       | O => None
       | S f =>
           let g := Z.gcd d 10 in
           if g =? 1 then None
           else scale_loop f (n * (10 / g)) (d / g) (k + 1)
       end.

(** Trailing zeros of [s] moved into the exponent [z]. *)
Fixpoint strip_zeros (fuel : nat) (s z : Z) : Z * Z :=
  match fuel with
  | O => (s, z)
  | S f =>
      if (s mod 10 =? 0) && negb (s =? 0) then strip_zeros f (s / 10) (z + 1)
      else (s, z)
  end.

Definition bits (z : Z) : nat := S (Z.to_nat (Z.log2 z)).

(** A positive finite value [q] as [s * 10^e] with [s] an integer that does
    not end in 0.  Every binary64 value has a finite decimal expansion; a
    rational that has none is no binary64 value, and is cut here after 21
    fractional digits. *)
Definition decimal_of (q : Qc) : Z * Z :=
  let n := Qnum q in
  let d := Zpos (Qden q) in
  match scale_loop (bits d) n d 0 with
  | Some (m, k) => let (s, z) := strip_zeros (bits m) m 0 in (s, z - k)
  | None =>
      let m := Qfloor (q * inject_Z (10 ^ 21)) in
      let (s, z) := strip_zeros (bits m) m 0 in (s, z - 21)
  end.

(** The text of [0.d1d2...dk * 10^n], as Number::toString lays it out:
    plain digits, digits with a decimal point, [0.000ddd], or exponent
    notation. *)
Definition format (ds : list N) (n : Z) : string :=
  let k := Z.of_nat (length ds) in
  if (k <=? n) && (n <=? 21) then
    digits_str (ds ++ repeat 0%N (Z.to_nat (n - k)))
  else if (0 <? n) && (n <=? 21) then
    digits_str (firstn (Z.to_nat n) ds) +:+ "." +:+
    digits_str (skipn (Z.to_nat n) ds)
  else if (-6 <? n) && (n <=? 0) then
    "0." +:+ digits_str (repeat 0%N (Z.to_nat (- n)) ++ ds)
  else
    let e := n - 1 in
    let es := (if e <? 0 then "-" else "+") +:+
              digits_str (to_digits (Z.to_N (Z.abs e))) in
    match ds with
    | [] => EmptyString
    | [d] => digits_str [d] +:+ "e" +:+ es
    | d :: r => digits_str [d] +:+ "." +:+ digits_str r +:+ "e" +:+ es
    end.

Definition pos_toString (q : Qc) : string :=
  let (s, e) := decimal_of q in
  if s =? 0 then "0"
  else
    let ds := to_digits (Z.to_N s) in
    format ds (Z.of_nat (length ds) + e).

(** [String(x)] for a number [x], as a template literal does it. *)
Definition toString (x : number) : string :=
  match x with
  | NaN => "NaN"
  | PInf => "Infinity"
  | NInf => "-Infinity"
  | Num q =>
      match Qc_sign q with
      | Eq => "0"
      | Gt => pos_toString q
      | Lt => "-" +:+ pos_toString (- q)%Qc
      end
  end.

(** *** Values and exceptions *)

(** The values the helpers meet: what a JSON document holds, and
    [undefined] for what is absent.  [VObject] is an object or an array of
    plain data, of which the helpers only ever ask whether it is truthy,
    what its type is, and for its (absent) [split] method. *)
Inductive value : Type :=
  | VUndefined
  | VNull
  | VBool (b : bool)
  | VNum (x : number)
  | VStr (s : string)
  | VObject.

Definition is_empty (s : string) : bool :=
  match s with
  | EmptyString => true
  | _ => false
  end.

(** ToBoolean *)
Definition truthy (v : value) : bool :=
  match v with
  | VUndefined | VNull => false
  | VBool b => b
  | VNum x => truthy_num x
  | VStr s => negb (is_empty s)
  | VObject => true
  end.

(** [typeof v === 'string'] *)
Definition is_string (v : value) : bool :=
  match v with
  | VStr _ => true
  | _ => false
  end.

Inductive exn : Type := TypeError.

Inductive result (A : Type) : Type :=
  | Ok (a : A)
  | Throw (e : exn).
Arguments Ok {A} a.
Arguments Throw {A} e.

Definition bind {A B} (m : result A) (k : A -> result B) : result B :=
  match m with
  | Ok a => k a
  | Throw e => Throw e
  end.

Notation "'let*' x ':=' m 'in' k" := (bind m (fun x => k))
  (at level 10, x name, m at level 100, k at level 200).

(** [v.split(sep)]: only a string has the method; on [undefined] and [null]
    the property access throws, on any other value the call does. *)
Definition call_split (v : value) (sep : ascii) : result (list string) :=
  match v with
  | VStr s => Ok (split sep s)
  | _ => Throw TypeError
  end.

(** [parseFloat(parts[i])] for an array of strings: an index past the end
    gives [undefined], which [parseFloat] reads as the text [undefined]. *)
Definition parseFloat_at (parts : list string) (i : nat) : number :=
  match parts !! i with
  | Some s => parseFloat s
  | None => parseFloat "undefined"
  end.

(** [parts[i] || 0] for an array of numbers. *)
Definition at_or_zero (parts : list number) (i : nat) : number :=
  match parts !! i with
  | Some x => or_zero x
  | None => zero
  end.

(** [xs.reduce(f, init)] for a callback that may throw. *)
Fixpoint reduce {A B} (f : B -> A -> result B) (xs : list A) (init : B)
  : result B :=
  match xs with
  | [] => Ok init
  | x :: r => let* acc := f init x in reduce f r acc
  end.

End JS.

(** ** The area helpers *)

Module AreaUnit.
Import JS.

Definition dash : ascii := "-".

(** [parseAreaToWah] *)
Definition parseAreaToWah (str : value) : result number :=
  if negb (truthy str) || negb (is_string str) then Ok zero
  else
    let* strs := call_split str dash in
    let parts := map (fun s => or_zero (parseFloat s)) strs in
    let rai := at_or_zero parts 0 in
    let ngan := at_or_zero parts 1 in
    let wah := at_or_zero parts 2 in
    Ok (add (add (mul rai (of_Z 400)) (mul ngan (of_Z 100))) wah).

(** [wahToAreaStr], on the numbers its callers pass. *)
Definition wahToAreaStr (totalWah : number) : string :=
  if negb (truthy_num totalWah) || le totalWah zero then "0-0-0"
  else
    let rai := Math_floor (div totalWah (of_Z 400)) in
    let remain := sub totalWah (mul rai (of_Z 400)) in
    let ngan := Math_floor (div remain (of_Z 100)) in
    let wah :=
      div (Math_round (mul (sub remain (mul ngan (of_Z 100))) (of_Z 100)))
          (of_Z 100) in
    toString rai +:+ "-" +:+ toString ngan +:+ "-" +:+ toString wah.

Record parts : Type := { rai : string; ngan : string; wah : string }.

(** [p !== undefined && p !== '0' ? p : p === '0' ? '0' : ''] *)
Definition part_field (p : option string) : string :=
  match p with
  | Some s =>
      if negb (String.eqb s "0") then s
      else if String.eqb s "0" then "0" else ""
  | None => ""
  end.

(** [parseAreaParts] *)
Definition parseAreaParts (str : value) : result parts :=
  if negb (truthy str) || negb (is_string str)
  then Ok {| rai := ""; ngan := ""; wah := "" |}
  else
    let* ps := call_split str dash in
    Ok {| rai := part_field (ps !! 0%nat);
          ngan := part_field (ps !! 1%nat);
          wah := part_field (ps !! 2%nat) |}.

(** [partsToStr], on the three text-field states its caller passes. *)
Definition partsToStr (rai ngan wah : string) : string :=
  let r := if String.eqb rai "" then "" else rai in
  let n := if String.eqb ngan "" then "" else ngan in
  let w := if String.eqb wah "" then "" else wah in
  r +:+ "-" +:+ n +:+ "-" +:+ w.

(** [normalizeAreaStr] *)
Definition normalizeAreaStr (str : value) : result string :=
  if negb (truthy str) then Ok ""
  else
    let* ps := call_split str dash in
    let r := or_zero (parseFloat_at ps 0) in
    let n := or_zero (parseFloat_at ps 1) in
    let w := or_zero (parseFloat_at ps 2) in
    if strict_eq r zero && strict_eq n zero && strict_eq w zero then Ok ""
    else Ok (toString r +:+ "-" +:+ toString n +:+ "-" +:+ toString w).

End AreaUnit.

(** ** The allocation editor *)

Module LandUsePopup.
Import JS AreaUnit.

(** The two pieces of state of the component. *)
Record state : Type := {
  selected : list string;
  areas : gmap string value
}.

(** [areas[key]] *)
Definition area_of (areas : gmap string value) (key : string) : value :=
  default VUndefined (areas !! key).



Definition includes (xs : list string) (key : string) : bool :=
  existsb (String.eqb key) xs.

Definition without (xs : list string) (key : string) : list string :=
  List.filter (fun k => negb (String.eqb k key)) xs.

(** [toggle]: a selected key is dropped together with its area entry, an
    unselected one is appended. *)
Definition toggle (key : string) (st : state) : state :=
  if includes (selected st) key then
    {| selected := without (selected st) key;
       areas := delete key (areas st) |}
  else
    {| selected := selected st ++ [key]; areas := areas st |}.

(** [setPrimary] *)
Definition setPrimary (key : string) (st : state) : state :=
  if negb (includes (selected st) key) then
    {| selected := key :: selected st; areas := areas st |}
  else
    {| selected := key :: without (selected st) key; areas := areas st |}.

(** [handleAreaChange] *)
Definition handleAreaChange (key : string) (val : value) (st : state)
  : state :=
  {| selected := selected st; areas := <[key := val]> (areas st) |}.

(** The sum [otherUsed] of [autoFillRemain] and of the row of [key]. *)
Definition otherUsed (key : string) (st : state) : result number :=
  reduce (fun sum k =>
            if String.eqb k key then Ok sum
            else let* a := parseAreaToWah (area_of (areas st) k) in
                 Ok (add sum a))
         (selected st) zero.

(** [autoFillRemain] *)
Definition autoFillRemain (totalArea : value) (key : string) (st : state)
  : result state :=
  let* totalWah := parseAreaToWah totalArea in
  let* other := otherUsed key st in
  let remaining := sub totalWah other in
  if gt remaining zero then
    Ok {| selected := selected st;
          areas := <[key := VStr (wahToAreaStr remaining)]> (areas st) |}
  else Ok st.

(** [handleSave]: what is handed to [onAssign], the selection with the
    areas that normalize to a non-empty text.  The entries of [areas] are
    visited in the order of [map_to_list]; the keys being distinct, the
    order shows neither in the areas kept nor in whether an entry throws. *)
Definition handleSave (st : state)
  : result (list string * gmap string string) :=
  let* cleanAreas :=
    reduce (fun (clean : gmap string string) (kv : string * value) =>
              let* n := normalizeAreaStr (snd kv) in
              Ok (if negb (is_empty n) then <[fst kv := n]> clean
                  else clean))
           (map_to_list (areas st)) ∅ in
  Ok (selected st, cleanAreas).




End LandUsePopup.

(** ** The operations as the specification words them *)

Module Spec.
Import JS.

(** A component read as a floating-point number, an unparseable one
    counting as 0. *)
Definition float_or_zero (s : string) : number :=
  match parseFloat s with
  | NaN => zero
  | x => x
  end.

(** The [i]-th of the dash-separated components of [s], an absent one
    counting as 0. *)
Definition component (s : string) (i : nat) : number :=
  match split "-" s !! i with
  | Some p => float_or_zero p
  | None => zero
  end.

(** [A*400 + B*100 + C] *)
Definition scalar_of (a b c : number) : number :=
  add (add (mul a (of_Z 400)) (mul b (of_Z 100))) c.

(** parseToScalar: split on the dash, parse each of up to three components,
    return [A*400 + B*100 + C]; [0] for null, a non-string or the empty
    string. *)
Definition parseToScalar (v : value) : number :=
  match v with
  | VStr s =>
      if is_empty s then zero
      else
        let cs := map float_or_zero (firstn 3 (split "-" s)) in
        scalar_of (nth 0 cs zero) (nth 1 cs zero) (nth 2 cs zero)
  | _ => zero
  end.


(** The text [{a}-{b}-{c}] of three numbers. *)
Definition triple_text (a b c : number) : string :=
  toString a +:+ "-" +:+ toString b +:+ "-" +:+ toString c.

(** normalizeForStorage: the empty string when the three components all
    resolve to 0, their text otherwise. *)
Definition normalizeForStorage (s : string) : string :=
  let r := component s 0 in
  let n := component s 1 in
  let w := component s 2 in
  if strict_eq r zero && strict_eq n zero && strict_eq w zero then ""
  else triple_text r n w.

(** The sum of the scalars of the areas of the categories [keys]. *)
Definition usedScalar (keys : list string) (areas : gmap string value)
  : number :=
  fold_left add
    (map (fun k => parseToScalar (default VUndefined (areas !! k))) keys)
    zero.

(** A positive number below a millionth: Number::toString writes these,
    and only these among the non-negative numbers, with a negative
    exponent, as in [1e-7]. *)
Definition tiny (x : number) : bool :=
  lt zero x && lt x (Num (dec_value 1 (-6))).



End Spec.

(** ** Notions the statements and their proofs use *)

Module Notions.
Import JS LandUsePopup.

(** A decimal digit. *)
Definition is_digitval (d : N) : Prop := (d < 10)%N.

(** [s.includes(c)] for a character [c]. *)
Fixpoint contains (c : ascii) (s : string) : bool :=
  match s with
  | EmptyString => false
  | String a t => Ascii.eqb a c || contains c t
  end.

(** Whether [s] goes on with a digit, or with the decimal point. *)
Definition starts_with_digit (s : string) : bool :=
  match s with
  | String c _ => match digit_of c with Some _ => true | None => false end
  | EmptyString => false
  end.

Definition starts_with_dot (s : string) : bool :=
  match s with
  | String "."%char _ => true
  | _ => false
  end.

(** Ten and its power -6 as rationals. *)
Definition ten : Q := inject_Z 10.

Definition millionth : Q := ten ^ (-6).

(** The integer [z] as a finite value. *)
Definition qz (z : Z) : Qc := Q2Qc (inject_Z z).

(** The numbers a dash-free component can stand for, less the tiny ones. *)
Definition printable (x : number) : Prop :=
  (x = PInf \/ exists m e, x = Num (dec_value m e)) /\ Spec.tiny x = false.

(** The selection and areas of the worked allocation example. *)
Definition example_state : state :=
  {| selected := ["a"; "b"];
     areas := <["a" := VStr "5-0-0"]> (<["b" := VStr "3-0-0"]> ∅) |}.


(** A stored allocation whose area is the number 5, not a text. *)
Definition stored_number_state : state :=
  {| selected := ["a"]; areas := <["a" := VNum (of_Z 5)]> ∅ |}.


End Notions.

(** ** The row of one category: three text fields *)

Module AreaInput.
Import JS AreaUnit.

(** [s.replace(/[^...]/g, '')]: the characters of [s] the class accepts. *)
Fixpoint keep_chars (keep : ascii -> bool) (s : string) : string :=
  match s with
  | EmptyString => EmptyString
  | String c t =>
      if keep c then String c (keep_chars keep t) else keep_chars keep t
  end.

(** The classes [0-9], [0-9.] and the complement of [\.]. *)
Definition is_digit (c : ascii) : bool :=
  match digit_of c with
  | Some _ => true
  | None => false
  end.

Definition is_dot (c : ascii) : bool := Ascii.eqb c ".".

Definition digit_or_dot (c : ascii) : bool := is_digit c || is_dot c.

Definition not_dot (c : ascii) : bool := negb (is_dot c).

(** [s.indexOf(c)]: the place of the first [c], from 0, and -1 when there
    is none. *)
Fixpoint indexOf (c : ascii) (s : string) : Z :=
  match s with
  | EmptyString => -1
  | String a t =>
      if Ascii.eqb a c then 0
      else let i := indexOf c t in if i =? -1 then -1 else i + 1
  end.

Fixpoint str_take (n : nat) (s : string) : string :=
  match n, s with
  | S m, String c t => String c (str_take m t)
  | _, _ => EmptyString
  end.

Fixpoint str_drop (n : nat) (s : string) : string :=
  match n, s with
  | S m, String _ t => str_drop m t
  | _, _ => s
  end.

(** An index of [slice] brought into the string: a negative one counts
    from the end, and both ends stop at the bounds. *)
Definition clamp_index (len i : Z) : Z :=
  if i <? 0 then Z.max (len + i) 0 else Z.min i len.

(** [s.slice(start, stop)] and [s.slice(start)] *)
Definition slice (s : string) (start stop : Z) : string :=
  let len := Z.of_nat (String.length s) in
  let from := clamp_index len start in
  let to := clamp_index len stop in
  str_take (Z.to_nat (to - from)) (str_drop (Z.to_nat from) s).

Definition slice_from (s : string) (start : Z) : string :=
  slice s start (Z.of_nat (String.length s)).

(** The state of a row: the three fields and the value last committed. *)
Record fields : Type := {
  localRai : string;
  localNgan : string;
  localWah : string;
  committedRef : value
}.

(** The state a row is given when it mounts with the prop [value], which is
    also the state its effect sets when [value] is another than the one
    committed. *)
Definition mount (value : value) : result fields :=
  let* r := parseAreaParts value in
  let* n := parseAreaParts value in
  let* w := parseAreaParts value in
  Ok {| localRai := rai r; localNgan := ngan n; localWah := wah w;
        committedRef := value |}.

(** [handleChange]: the new state and the text handed to [onChange] by
    [commit]. *)
Definition handleChange (field raw : string) (st : fields) : fields * string :=
  let isWah := String.eqb field "wah" in
  let cleaned :=
    if isWah then keep_chars digit_or_dot raw else keep_chars is_digit raw in
  if isWah then
    let dotIdx := indexOf "." cleaned in
    let final :=
      if negb (dotIdx =? -1) then
        slice cleaned 0 (dotIdx + 1) +:+
        slice (keep_chars not_dot (slice_from cleaned (dotIdx + 1))) 0 2
      else cleaned in
    let v := partsToStr (localRai st) (localNgan st) final in
    ({| localRai := localRai st; localNgan := localNgan st;
        localWah := final; committedRef := VStr v |}, v)
  else if String.eqb field "rai" then
    let v := partsToStr cleaned (localNgan st) (localWah st) in
    ({| localRai := cleaned; localNgan := localNgan st;
        localWah := localWah st; committedRef := VStr v |}, v)
  else
    let v := partsToStr (localRai st) cleaned (localWah st) in
    ({| localRai := localRai st; localNgan := cleaned;
        localWah := localWah st; committedRef := VStr v |}, v).

(** A run of edits, each a field and the text typed into it. *)
Definition edits (es : list (string * string)) (st : fields) : fields :=
  fold_left (fun s e => fst (handleChange (fst e) (snd e) s)) es st.

End AreaInput.


(** ** Plain data *)

Module Json.
Import JS.

(** What a JSON document holds, and [undefined] for what is absent.  An
    object is the list of its properties in their order, each name once. *)
#[warnings="-register-all"]
Inductive json : Type :=
  | JUndefined
  | JNull
  | JBool (b : bool)
  | JNum (x : number)
  | JStr (s : string)
  | JArr (items : list json)
  | JObj (props : list (string * json)).

(** ToBoolean *)
Definition jtruthy (v : json) : bool :=
  match v with
  | JUndefined | JNull => false
  | JBool b => b
  | JNum x => truthy_num x
  | JStr s => negb (is_empty s)
  | JArr _ | JObj _ => true
  end.

(** [a || b] *)
Definition or_else (a b : json) : json := if jtruthy a then a else b.

(** [typeof v === 'string'], [Array.isArray(v)] and [typeof v === 'object'],
    which holds of [null] too. *)
Definition jis_string (v : json) : bool :=
  match v with
  | JStr _ => true
  | _ => false
  end.

Definition isArray (v : json) : bool :=
  match v with
  | JArr _ => true
  | _ => false
  end.

Definition typeof_object (v : json) : bool :=
  match v with
  | JNull | JArr _ | JObj _ => true
  | _ => false
  end.

(** [v === s] for a string [s] *)
Definition is_str (s : string) (v : json) : bool :=
  match v with
  | JStr t => String.eqb t s
  | _ => false
  end.

Fixpoint lookup_prop (k : string) (props : list (string * json))
  : option json :=
  match props with
  | [] => None
  | (k', v) :: r => if String.eqb k' k then Some v else lookup_prop k r
  end.

(** [v.k] for a name [k] that no prototype defines, as are all the names
    the viewer reads: the property of an object, [undefined] on every other
    value but [undefined] and [null], on which the access throws. *)
Definition get (v : json) (k : string) : result json :=
  match v with
  | JUndefined | JNull => Throw TypeError
  | JObj props => Ok (default JUndefined (lookup_prop k props))
  | _ => Ok JUndefined
  end.

(** [v?.k] *)
Definition get_opt (v : json) (k : string) : json :=
  match v with
  | JObj props => default JUndefined (lookup_prop k props)
  | _ => JUndefined
  end.

(** [{ ...props, k: v }]: the property keeps its place when there is one
    and comes last otherwise. *)
Fixpoint set_prop (k : string) (v : json) (props : list (string * json))
  : list (string * json) :=
  match props with
  | [] => [(k, v)]
  | (k', v') :: r =>
      if String.eqb k' k then (k, v) :: r else (k', v') :: set_prop k v r
  end.

(** [xs.filter(p)] for a callback that may throw. *)
Fixpoint filter_result {A} (p : A -> result bool) (xs : list A)
  : result (list A) :=
  match xs with
  | [] => Ok []
  | x :: r =>
      let* keep := p x in
      let* rest := filter_result p r in
      Ok (if keep then x :: rest else rest)
  end.

End Json.

(** ** GeoJSON and the assignments *)

Module GeoJson.
Import JS Json.

(** [VALID_GEOM_TYPES.has(v)] *)
Definition VALID_GEOM_TYPES : list string :=
  ["Point"; "MultiPoint"; "LineString"; "MultiLineString";
   "Polygon"; "MultiPolygon"; "GeometryCollection"].

Definition has_geom_type (v : json) : bool :=
  match v with
  | JStr s => existsb (String.eqb s) VALID_GEOM_TYPES
  | _ => false
  end.

(** [f && f.geometry && VALID_GEOM_TYPES.has(f.geometry.type)], as the
    filter reads it. *)
Definition valid_feature (f : json) : result bool :=
  if negb (jtruthy f) then Ok false
  else
    let* g := get f "geometry" in
    if negb (jtruthy g) then Ok false
    else
      let* g' := get f "geometry" in
      let* t := get g' "type" in
      Ok (has_geom_type t).

(** [sanitizeGeoJSON].  Where the features are an array, [data] is an
    object: the last case of the [match] is never reached. *)
Definition sanitizeGeoJSON (data : json) : result json :=
  if negb (jtruthy data) then Ok JNull
  else
    let* ty := get data "type" in
    let* collection :=
      if is_str "FeatureCollection" ty then
        let* fs := get data "features" in Ok (isArray fs)
      else Ok false in
    if collection then
      let* fs := get data "features" in
      match fs, data with
      | JArr features, JObj props =>
          let* valid := filter_result valid_feature features in
          if (length valid =? 0)%nat then Ok JNull
          else if (length valid =? length features)%nat then Ok data
          else Ok (JObj (set_prop "features" (JArr valid) props))
      | _, _ => Throw TypeError
      end
    else
      let* ty := get data "type" in
      if is_str "Feature" ty then
        let* g := get data "geometry" in
        let* bad :=
          if negb (jtruthy g) then Ok true
          else
            let* g' := get data "geometry" in
            let* t := get g' "type" in
            Ok (negb (has_geom_type t)) in
        if bad then Ok JNull else Ok data
      else
        let* ty := get data "type" in
        if has_geom_type ty then Ok data else Ok JNull.

(** [getParcelCode] and [getParcelArea] *)
Definition getParcelCode (props : json) : json :=
  or_else (or_else (or_else (get_opt props "parcel_cod")
                            (get_opt props "PARCEL_COD"))
                   (get_opt props "Parcel_cod"))
          JNull.

Definition getParcelArea (props : json) : json :=
  or_else (or_else (or_else (get_opt props "Area") (get_opt props "area"))
                   (get_opt props "AREA"))
          JNull.

(** [normalizeLUFull] *)
Definition normalizeLUFull (val : json) : result json :=
  let empty := JObj [("types", JArr []); ("areas", JObj [])] in
  if negb (jtruthy val) then Ok empty
  else if jis_string val then
    Ok (JObj [("types", JArr [val]); ("areas", JObj [])])
  else if isArray val then Ok (JObj [("types", val); ("areas", JObj [])])
  else
    let* t := get val "types" in
    if jtruthy t then
      let* t' := get val "types" in
      let* a := get val "areas" in
      Ok (JObj [("types", or_else t' (JArr []));
                ("areas", or_else a (JObj []))])
    else Ok empty.

(** [normalizeLU] *)
Definition normalizeLU (val : json) : result json :=
  let* full := normalizeLUFull val in get full "types".

End GeoJson.

(** ** The survey: which parcels have a land use *)

Module Survey.
Import JS Json GeoJson.










End Survey.

(** ** The layers of the map *)

Module Layers.
Import JS Json.

Record layer : Type := {
  id : Z;
  name : string;
  data : json;
  color : string;
  visible : bool;
  featureCount : Z;
  savedOnServer : bool
}.

(** The state the layer handlers read and write. *)
Record view : Type := {
  geojsonLayers : list layer;
  tableLayerId : option Z;
  selectedFeature : option json;
  mapKey : Z
}.

(** [xs.findIndex(p)]: the place of the first element [p] holds of, from
    0, and -1 when there is none. *)
Fixpoint findIndex {A} (p : A -> bool) (xs : list A) : Z :=
  match xs with
  | [] => -1
  | x :: r =>
      if p x then 0
      else let i := findIndex p r in if i =? -1 then -1 else i + 1
  end.

(** [l.id === target] *)
Definition has_id (target : Z) (l : layer) : bool := id l =? target.



(** [moveLayer]: the layer of the identifier changes places with its
    neighbour above or below, when there is one.  Both places are within
    the list when the exchange is reached. *)
Definition moveLayer (target : Z) (direction : string) (v : view) : view :=
  let prev := geojsonLayers v in
  let next :=
    let idx := findIndex (has_id target) prev in
    if idx =? -1 then prev
    else
      let ti := if String.eqb direction "up" then idx - 1 else idx + 1 in
      if (ti <? 0) || (ti >=? Z.of_nat (length prev)) then prev
      else
        match prev !! Z.to_nat idx, prev !! Z.to_nat ti with
        | Some a, Some b =>
            <[Z.to_nat ti := a]> (<[Z.to_nat idx := b]> prev)
        | _, _ => prev
        end in
  {| geojsonLayers := next; tableLayerId := tableLayerId v;
     selectedFeature := selectedFeature v; mapKey := mapKey v + 1 |}.

(** [toggleLayerVisibility] *)
Definition toggleLayerVisibility (target : Z) (v : view) : view :=
  {| geojsonLayers :=
       map (fun l =>
              if has_id target l then
                {| id := id l; name := name l; data := data l;
                   color := color l; visible := negb (visible l);
                   featureCount := featureCount l;
                   savedOnServer := savedOnServer l |}
              else l)
           (geojsonLayers v);
     tableLayerId := tableLayerId v;
     selectedFeature := selectedFeature v; mapKey := mapKey v + 1 |}.




End Layers.

(** ** The pages of the attribute table *)

Module AttributeTable.
Import JS AreaInput.

Definition PAGE_SIZE : Z := 50.

(** [Math.ceil], [Math.max] and [Math.min] of two numbers *)
Definition Math_ceil (x : number) : number :=
  match x with
  | Num q => of_Z (Qceiling q)
  | _ => x
  end.

Definition Math_max (x y : number) : number :=
  match x, y with
  | NaN, _ | _, NaN => NaN
  | _, _ => if lt x y then y else x
  end.

Definition Math_min (x y : number) : number :=
  match x, y with
  | NaN, _ | _, NaN => NaN
  | _, _ => if lt y x then y else x
  end.

(** ToIntegerOrInfinity of an index of [slice], brought into an array of
    the length [len]: a negative index counts from the end, and both ends
    stop at the bounds. *)
Definition truncate (q : Qc) : Z :=
  match Qc_sign q with
  | Lt => Qceiling q
  | _ => Qfloor q
  end.

Definition slice_index (len : Z) (x : number) : Z :=
  match x with
  | NaN => 0
  | NInf => 0
  | PInf => len
  | Num q => clamp_index len (truncate q)
  end.

(** [xs.slice(start, stop)] *)
Definition array_slice {A} (xs : list A) (start stop : number) : list A :=
  let len := Z.of_nat (length xs) in
  let from := slice_index len start in
  let to := slice_index len stop in
  take (Z.to_nat (to - from)) (drop (Z.to_nat from) xs).

(** [totalPages] and [paged], from the rows [sorted] and the state
    [page]. *)
Definition totalPages {A} (sorted : list A) : number :=
  Math_max (of_Z 1)
           (Math_ceil (div (of_Z (Z.of_nat (length sorted)))
                           (of_Z PAGE_SIZE))).

Definition paged {A} (sorted : list A) (page : number) : list A :=
  array_slice sorted (mul page (of_Z PAGE_SIZE))
              (mul (add page (of_Z 1)) (of_Z PAGE_SIZE)).

(** The four buttons under the table. *)
Definition firstPage : number := of_Z 0.

Definition prevPage (p : number) : number :=
  Math_max (of_Z 0) (sub p (of_Z 1)).

Definition nextPage {A} (sorted : list A) (p : number) : number :=
  Math_min (sub (totalPages sorted) (of_Z 1)) (add p (of_Z 1)).

Definition lastPage {A} (sorted : list A) : number :=
  sub (totalPages sorted) (of_Z 1).

(** [globalIdx], the number of the row [idx] of the page. *)
Definition globalIdx (page : number) (idx : Z) : number :=
  add (mul page (of_Z PAGE_SIZE)) (of_Z idx).

End AttributeTable.

(** ** Notions the further statements use *)

Module MoreNotions.
Import JS AreaUnit LandUsePopup AreaInput Notions.

(** [s] is made of characters of the class [p] only. *)
Fixpoint all_chars (p : ascii -> bool) (s : string) : bool :=
  match s with
  | EmptyString => true
  | String c t => p c && all_chars p t
  end.

(** The texts of a wah field: digits, with at most one decimal point and
    at most two digits after it. *)
Definition wah_text (s : string) : Prop :=
  all_chars is_digit s = true \/
  exists a b : string,
    s = a +:+ "." +:+ b /\
    all_chars is_digit a = true /\ all_chars is_digit b = true /\
    (String.length b <= 2)%nat.

(** The field of a row that [handleChange] writes for the name [field]:
    the wah field for [wah], the rai field for [rai], and the ngan field for
    every other name. *)
Definition field_of (field : string) (st : fields) : string :=
  if String.eqb field "wah" then localWah st
  else if String.eqb field "rai" then localRai st
  else localNgan st.

(** None of the three fields holds a dash. *)
Definition dash_free (st : fields) : Prop :=
  contains "-" (localRai st) = false /\
  contains "-" (localNgan st) = false /\
  contains "-" (localWah st) = false.

(** The three fields of a row as the parts of an area. *)
Definition shown (st : fields) : parts :=
  {| rai := localRai st; ngan := localNgan st; wah := localWah st |}.

(** The fields of a row as [handleChange] leaves them: digits in the rai and
    ngan fields, a wah text in the wah field. *)
Definition clean (st : fields) : Prop :=
  all_chars is_digit (localRai st) = true /\
  all_chars is_digit (localNgan st) = true /\
  wah_text (localWah st).


(** What the field of the name [field] accepts: a wah text in the wah field,
    digits in the other two. *)
Definition accepted (field s : string) : Prop :=
  if String.eqb field "wah" then wah_text s
  else all_chars is_digit s = true.

(** A row nothing was typed into yet. *)
Definition empty_row : fields :=
  {| localRai := ""; localNgan := ""; localWah := ""; committedRef := VStr "" |}.

(** Every area entry belongs to a selected category. *)
Definition covered (st : state) : Prop :=
  forall k : string, is_Some (areas st !! k) -> In k (selected st).

(** The state of the editor opened on a saved record. *)
Definition reopened (saved : list string * gmap string string) : state :=
  {| selected := fst saved; areas := VStr <$> snd saved |}.

(** None of the three components of [s] is tiny. *)
Definition no_tiny (s : string) : Prop :=
  Spec.tiny (Spec.component s 0) = false /\
  Spec.tiny (Spec.component s 1) = false /\
  Spec.tiny (Spec.component s 2) = false.

(** What [handleSave] does with one entry of the areas. *)
Definition save_step (clean : gmap string string) (kv : string * value)
  : result (gmap string string) :=
  let* n := normalizeAreaStr (snd kv) in
  Ok (if negb (is_empty n) then <[fst kv := n]> clean else clean).


(** Three layers with the identifiers 1, 2 and 3, all shown. *)
Definition plain_layer (i : Z) : Layers.layer :=
  {| Layers.id := i; Layers.name := ""; Layers.data := Json.JNull;
     Layers.color := ""; Layers.visible := true; Layers.featureCount := 1;
     Layers.savedOnServer := false |}.

Definition three_layers : Layers.view :=
  {| Layers.geojsonLayers := [plain_layer 1; plain_layer 2; plain_layer 3];
     Layers.tableLayerId := Some 2; Layers.selectedFeature := None;
     Layers.mapKey := 0 |}.

(** The layer [l'] is the layer [l] but for its visibility, which is the
    other one when [flip] holds. *)
Definition same_but_visible (flip : bool) (l l' : Layers.layer) : Prop :=
  Layers.id l' = Layers.id l /\ Layers.name l' = Layers.name l /\
  Layers.data l' = Layers.data l /\ Layers.color l' = Layers.color l /\
  Layers.featureCount l' = Layers.featureCount l /\
  Layers.savedOnServer l' = Layers.savedOnServer l /\
  Layers.visible l' = xorb flip (Layers.visible l).

(** The page [q] is one of the pages of the rows [sorted]: a whole number
    from 0 on and below [totalPages]. *)
Definition in_range {A} (sorted : list A) (q : number) : Prop :=
  exists p : Z,
    q = of_Z p /\ 0 <= p /\ lt q (AttributeTable.totalPages sorted) = true.

(** Whether the filter of [sanitizeGeoJSON] keeps the feature [f]. *)
Definition kept_feature (f : Json.json) : bool :=
  match GeoJson.valid_feature f with
  | Ok b => b
  | Throw _ => false
  end.

(** What the map can draw: a collection of at least one feature, each with
    a geometry of a valid type; a feature with such a geometry; or a
    geometry of a valid type. *)
Definition renderable (r : Json.json) : Prop :=
  (exists fs : list Json.json,
     Json.get r "type" = Ok (Json.JStr "FeatureCollection") /\
     Json.get r "features" = Ok (Json.JArr fs) /\ fs <> [] /\
     Forall (fun f => GeoJson.valid_feature f = Ok true) fs) \/
  (Json.get r "type" = Ok (Json.JStr "Feature") /\
   exists g t : Json.json,
     Json.get r "geometry" = Ok g /\ Json.get g "type" = Ok t /\
     GeoJson.has_geom_type t = true) \/
  (exists t : Json.json,
     Json.get r "type" = Ok t /\ GeoJson.has_geom_type t = true).

(** A feature with a point for its geometry. *)
Definition point_feature : Json.json :=
  Json.JObj [("type", Json.JStr "Feature");
             ("geometry", Json.JObj [("type", Json.JStr "Point")])].



End MoreNotions.


(** * Properties *)

(** Two closed numbers are the same when they evaluate to the same
    rational. *)
Ltac same_number :=
  vm_compute;
  first [ reflexivity
        | repeat f_equal; apply Qc_is_canon; reflexivity ].

(** ** Digits and their text *)

Module DigitFacts.
Import JS Notions.

Lemma digit_cases (d : N) :
  is_digitval d ->
  d = 0%N \/ d = 1%N \/ d = 2%N \/ d = 3%N \/ d = 4%N \/
  d = 5%N \/ d = 6%N \/ d = 7%N \/ d = 8%N \/ d = 9%N.
Proof. unfold is_digitval. lia. Qed.

Ltac each_digit H :=
  apply digit_cases in H;
  repeat (destruct H as [H | H]); subst.

Lemma digit_of_char (d : N) : is_digitval d -> digit_of (digit_char d) = Some d.
Proof. intros H. each_digit H; reflexivity. Qed.

Lemma of_digits_snoc (ds : list N) (d : N) :
  of_digits (ds ++ [d]) = (10 * of_digits ds + d)%N.
Proof. unfold of_digits. now rewrite fold_left_app. Qed.

Lemma of_digits_app (a b : list N) :
  of_digits (a ++ b)
  = (of_digits a * 10 ^ N.of_nat (length b) + of_digits b)%N.
Proof.
  induction b as [|d b IH] using rev_ind.
  - rewrite app_nil_r. cbn. lia.
  - rewrite app_assoc, !of_digits_snoc, IH, length_app. cbn [length].
    replace (N.of_nat (length b + 1)) with (N.succ (N.of_nat (length b)))
      by lia.
    rewrite N.pow_succ_r'. lia.
Qed.

Lemma of_digits_zeros (n : nat) : of_digits (repeat 0%N n) = 0%N.
Proof.
  induction n as [|n IH]; [reflexivity|].
  change (repeat 0%N (S n)) with ([0%N] ++ repeat 0%N n).
  rewrite of_digits_app, IH. cbn. lia.
Qed.

Lemma of_digits_bound (ds : list N) :
  Forall is_digitval ds -> (of_digits ds < 10 ^ N.of_nat (length ds))%N.
Proof.
  induction ds as [|d ds IH] using rev_ind; intros H.
  - cbn. lia.
  - apply Forall_app in H as [H1 H2]. inversion H2; subst.
    rewrite of_digits_snoc, length_app. cbn [length].
    replace (N.of_nat (length ds + 1)) with (N.succ (N.of_nat (length ds)))
      by lia.
    rewrite N.pow_succ_r'. specialize (IH H1). unfold is_digitval in *. lia.
Qed.

Lemma to_digits_aux_spec (fuel : nat) :
  forall n acc,
    (n < 2 ^ N.of_nat fuel)%N ->
    Forall is_digitval acc ->
    Forall is_digitval (to_digits_aux fuel n acc) /\
    of_digits (to_digits_aux fuel n acc)
    = (n * 10 ^ N.of_nat (length acc) + of_digits acc)%N.
Proof.
  induction fuel as [|f IH]; intros n acc Hn Hacc.
  - cbn in Hn. assert (n = 0%N) by lia. subst. cbn [to_digits_aux]. split.
    + constructor; [unfold is_digitval; lia | assumption].
    + change (0%N :: acc) with ([0%N] ++ acc). now rewrite of_digits_app.
  - cbn [to_digits_aux]. destruct (N.ltb_spec n 10) as [Hlt | Hge].
    + split.
      * constructor; assumption.
      * change (n :: acc) with ([n] ++ acc). rewrite of_digits_app. cbn. lia.
    + assert (Hdiv : (n / 10 < 2 ^ N.of_nat f)%N).
      { apply N.Div0.div_lt_upper_bound.
        replace (N.of_nat (S f)) with (N.succ (N.of_nat f)) in Hn by lia.
        rewrite N.pow_succ_r' in Hn. lia. }
      assert (Hmod : is_digitval (n mod 10)).
      { unfold is_digitval. apply N.mod_lt. lia. }
      destruct (IH (n / 10)%N ((n mod 10)%N :: acc) Hdiv) as [H1 H2].
      { constructor; assumption. }
      split; [assumption|]. rewrite H2.
      change ((n mod 10)%N :: acc) with ([(n mod 10)%N] ++ acc).
      rewrite of_digits_app. cbn [length app].
      replace (N.of_nat (S (length acc)))
        with (N.succ (N.of_nat (length acc))) by lia.
      rewrite N.pow_succ_r'.
      pose proof (N.div_mod n 10 ltac:(lia)) as Hdm.
      change (of_digits [(n mod 10)%N]) with (10 * 0 + n mod 10)%N.
      nia.
Qed.

Lemma to_digits_aux_nonnil (fuel : nat) n acc : to_digits_aux fuel n acc <> [].
Proof.
  revert n acc. induction fuel as [|f IH]; intros n acc; cbn.
  - discriminate.
  - destruct (n <? 10)%N; [discriminate | apply IH].
Qed.

Lemma to_digits_digits (n : N) : Forall is_digitval (to_digits n).
Proof.
  unfold to_digits. apply to_digits_aux_spec; [|constructor].
  rewrite N2Nat.id. apply N.size_gt.
Qed.

Lemma of_to_digits (n : N) : of_digits (to_digits n) = n.
Proof.
  unfold to_digits.
  destruct (to_digits_aux_spec (N.to_nat (N.size n)) n []) as [_ H].
  - rewrite N2Nat.id. apply N.size_gt.
  - constructor.
  - rewrite H. cbn. lia.
Qed.

Lemma to_digits_nonnil (n : N) : to_digits n <> [].
Proof. apply to_digits_aux_nonnil. Qed.

End DigitFacts.

(** ** Text: digits, separators and pieces *)

Module TextFacts.
Import JS DigitFacts Notions.

Lemma append_String (c : ascii) (s t : string) :
  String c s +:+ t = String c (s +:+ t).
Proof. reflexivity. Qed.

Lemma append_nil_l (t : string) : "" +:+ t = t.
Proof. reflexivity. Qed.

Lemma append_assoc (a b c : string) : (a +:+ b) +:+ c = a +:+ (b +:+ c).
Proof.
  induction a as [|x a IH]; [reflexivity|].
  rewrite !append_String. now rewrite IH.
Qed.

Lemma append_nil_r (a : string) : a +:+ "" = a.
Proof.
  induction a as [|x a IH]; [reflexivity|].
  rewrite append_String. now rewrite IH.
Qed.

Lemma digits_str_app (a b : list N) :
  digits_str (a ++ b) = digits_str a +:+ digits_str b.
Proof.
  induction a as [|x a IH]; [reflexivity|].
  cbn [app digits_str]. rewrite append_String. now rewrite IH.
Qed.

Lemma take_digits_stop (r : string) :
  starts_with_digit r = false -> take_digits r = ([], r).
Proof.
  destruct r as [|c r]; cbn; [reflexivity|].
  destruct (digit_of c); [discriminate | reflexivity].
Qed.

Lemma take_digits_str (ds : list N) (r : string) :
  Forall is_digitval ds ->
  starts_with_digit r = false ->
  take_digits (digits_str ds +:+ r) = (ds, r).
Proof.
  intros Hds Hr. induction Hds as [|d ds Hd _ IH].
  - now apply take_digits_stop.
  - cbn [digits_str]. rewrite append_String. cbn [take_digits].
    rewrite (digit_of_char d Hd). now rewrite IH.
Qed.

Lemma take_digits_all (ds : list N) :
  Forall is_digitval ds -> take_digits (digits_str ds) = (ds, "").
Proof.
  intros H. rewrite <- (append_nil_r (digits_str ds)).
  now apply take_digits_str.
Qed.

Lemma contains_app (c : ascii) (a b : string) :
  contains c (a +:+ b) = contains c a || contains c b.
Proof.
  induction a as [|x a IH]; [reflexivity|].
  rewrite append_String. cbn [contains]. rewrite IH. now rewrite orb_assoc.
Qed.

Lemma digit_char_not_dash (d : N) :
  is_digitval d -> Ascii.eqb (digit_char d) "-" = false.
Proof. intros H. each_digit H; reflexivity. Qed.

Lemma digits_str_no_dash (ds : list N) :
  Forall is_digitval ds -> contains "-" (digits_str ds) = false.
Proof.
  induction 1 as [|d ds Hd _ IH]; cbn; [reflexivity|].
  now rewrite digit_char_not_dash, IH.
Qed.

Lemma split_single (c : ascii) (a : string) :
  contains c a = false -> split c a = [a].
Proof.
  induction a as [|x a IH]; cbn; [reflexivity|].
  intros H. apply orb_false_iff in H as [H1 H2].
  rewrite H1, (IH H2). reflexivity.
Qed.

Lemma split_cons (c : ascii) (a b : string) :
  contains c a = false -> split c (a +:+ String c b) = a :: split c b.
Proof.
  induction a as [|x a IH].
  - intros _. rewrite append_nil_l. cbn [split]. now rewrite Ascii.eqb_refl.
  - intros H. cbn [contains] in H. apply orb_false_iff in H as [H1 H2].
    rewrite append_String. cbn [split]. rewrite H1, (IH H2). reflexivity.
Qed.

(** The three pieces of [a-b-c]. *)
Lemma split_three (a b c : string) :
  contains "-" a = false -> contains "-" b = false ->
  contains "-" c = false ->
  split "-" (a +:+ "-" +:+ b +:+ "-" +:+ c) = [a; b; c].
Proof.
  intros Ha Hb Hc.
  change (a +:+ "-" +:+ b +:+ "-" +:+ c)
    with (a +:+ String "-" (b +:+ String "-" c)).
  rewrite (split_cons _ _ _ Ha), (split_cons _ _ _ Hb).
  now rewrite (split_single _ _ Hc).
Qed.

(** No piece of a split holds the separator. *)
Lemma split_pieces (c : ascii) (s : string) :
  Forall (fun p => contains c p = false) (split c s).
Proof.
  induction s as [|x s IH]; cbn.
  - repeat constructor.
  - destruct (Ascii.eqb x c) eqn:E.
    + constructor; [reflexivity | assumption].
    + destruct (split c s) as [|p ps].
      * repeat constructor. cbn. now rewrite E.
      * inversion IH; subst. constructor; [|assumption].
        cbn. now rewrite E.
Qed.

End TextFacts.

(** ** The helpers against the specification *)

Module AreaFacts.
Import JS AreaUnit TextFacts Notions.

Lemma Qeq_bool_zero (q : Qc) : Qeq_bool q 0 = true -> q = Q2Qc 0.
Proof.
  intros H. apply Qeq_bool_eq in H. apply Qc_is_canon.
  rewrite H. reflexivity.
Qed.

Lemma or_zero_float (s : string) :
  or_zero (parseFloat s) = Spec.float_or_zero s.
Proof.
  unfold or_zero, Spec.float_or_zero.
  destruct (parseFloat s) as [| | |q]; try reflexivity.
  cbn. destruct (Qeq_bool q 0) eqn:E; [|reflexivity].
  cbn. unfold zero, of_Z. now rewrite (Qeq_bool_zero q E).
Qed.

Lemma or_zero_idem (x : number) : or_zero (or_zero x) = or_zero x.
Proof.
  unfold or_zero. destruct (truthy_num x) eqn:E; [now rewrite E|].
  reflexivity.
Qed.

Lemma or_zero_spec (s : string) :
  or_zero (Spec.float_or_zero s) = Spec.float_or_zero s.
Proof. rewrite <- or_zero_float. apply or_zero_idem. Qed.

(** [parts[i] || 0] after the [map] is the [i]-th of the first three
    components. *)
Lemma at_or_zero_component (strs : list string) (i : nat) :
  (i < 3)%nat ->
  at_or_zero (map (fun s => or_zero (parseFloat s)) strs) i
  = nth i (map Spec.float_or_zero (firstn 3 strs)) zero.
Proof.
  intros Hi. unfold at_or_zero.
  rewrite list_lookup_fmap.
  destruct strs as [|a [|b [|c r]]];
    destruct i as [|[|[|i]]]; try lia; cbn;
    rewrite ?or_zero_float, ?or_zero_spec; reflexivity.
Qed.

(** [parseAreaToWah] computes, and never throws. *)
Lemma parseAreaToWah_ok (v : value) :
  parseAreaToWah v = Ok (Spec.parseToScalar v).
Proof.
  destruct v as [| |b|x|s|]; try reflexivity.
  - unfold parseAreaToWah. cbn [is_string negb]. now rewrite orb_true_r.
  - unfold parseAreaToWah. cbn [is_string negb]. now rewrite orb_true_r.
  - unfold parseAreaToWah, Spec.parseToScalar.
    cbn [truthy is_string negb call_split bind]. rewrite orb_false_r.
    destruct (is_empty s); cbn [negb]; [reflexivity|].
    cbn [bind]. unfold Spec.scalar_of, dash.
    now rewrite !at_or_zero_component by lia.
Qed.

Lemma part_field_some (s : string) : part_field (Some s) = s.
Proof.
  unfold part_field. destruct (String.eqb_spec s "0"); subst; reflexivity.
Qed.

Lemma partsToStr_text (r n w : string) :
  partsToStr r n w = r +:+ "-" +:+ n +:+ "-" +:+ w.
Proof.
  unfold partsToStr.
  destruct (String.eqb_spec r ""), (String.eqb_spec n ""),
    (String.eqb_spec w ""); subst; reflexivity.
Qed.

Lemma is_empty_app (a : string) (c : ascii) (b : string) :
  is_empty (a +:+ String c b) = false.
Proof. destruct a; reflexivity. Qed.

Lemma component_at (s : string) (i : nat) :
  or_zero (parseFloat_at (split "-" s) i) = Spec.component s i.
Proof.
  unfold parseFloat_at, Spec.component.
  destruct (split "-" s !! i) as [p|]; [apply or_zero_float | reflexivity].
Qed.

(** [normalizeAreaStr] on a string. *)
Lemma normalizeAreaStr_string (s : string) :
  normalizeAreaStr (VStr s) = Ok (Spec.normalizeForStorage s).
Proof.
  unfold normalizeAreaStr. cbn [truthy].
  destruct s as [|c s]; [reflexivity|].
  cbn [is_empty negb call_split bind]. unfold dash.
  rewrite !component_at. unfold Spec.normalizeForStorage.
  now destruct (_ && _).
Qed.

Lemma nth_component (ps : list string) (i : nat) :
  (i < 3)%nat ->
  nth i (map Spec.float_or_zero (firstn 3 ps)) zero
  = match ps !! i with
    | Some p => Spec.float_or_zero p
    | None => zero
    end.
Proof.
  intros Hi.
  destruct ps as [|a [|b [|c r]]];
    destruct i as [|[|[|i]]]; try lia; reflexivity.
Qed.

(** The scalar of a string in terms of its three components. *)
Lemma parseToScalar_components (s : string) :
  Spec.parseToScalar (VStr s)
  = Spec.scalar_of (Spec.component s 0) (Spec.component s 1)
                   (Spec.component s 2).
Proof.
  destruct s as [|c s]; [same_number|].
  unfold Spec.parseToScalar, Spec.component. cbn [is_empty].
  now rewrite !nth_component by lia.
Qed.


End AreaFacts.

(** ** The allocation editor against the specification *)

Module PopupFacts.
Import JS AreaUnit LandUsePopup AreaFacts Notions.


Lemma reduce_other (key : string) (areas : gmap string value)
  (keys : list string) :
  forall init,
    reduce (fun sum k =>
              if String.eqb k key then Ok sum
              else let* a := parseAreaToWah (area_of areas k) in
                   Ok (add sum a)) keys init
    = Ok (fold_left add
            (map (fun k => Spec.parseToScalar (area_of areas k))
                 (without keys key)) init).
Proof.
  induction keys as [|k keys IH]; intros init; [reflexivity|].
  cbn [reduce without List.filter].
  destruct (String.eqb k key); cbn [negb bind].
  - apply IH.
  - rewrite parseAreaToWah_ok. cbn [bind map fold_left]. apply IH.
Qed.


Lemma otherUsed_ok (key : string) (st : state) :
  otherUsed key st
  = Ok (Spec.usedScalar (without (selected st) key) (areas st)).
Proof. unfold otherUsed. now rewrite reduce_other. Qed.

Lemma autoFillRemain_ok (totalArea : value) (key : string) (st : state) :
  autoFillRemain totalArea key st
  = Ok (let remaining :=
          sub (Spec.parseToScalar totalArea)
              (Spec.usedScalar (without (selected st) key) (areas st)) in
        if gt remaining zero then
          {| selected := selected st;
             areas := <[key := VStr (wahToAreaStr remaining)]> (areas st) |}
        else st).
Proof.
  unfold autoFillRemain. rewrite parseAreaToWah_ok, otherUsed_ok.
  cbn [bind]. cbv zeta.
  now destruct (gt _ zero).
Qed.

Lemma includes_In (keys : list string) (key : string) :
  includes keys key = true <-> In key keys.
Proof.
  unfold includes. rewrite existsb_exists. split.
  - intros (k & Hk & E). apply String.eqb_eq in E. now subst.
  - intros H. exists key. split; [assumption | apply String.eqb_refl].
Qed.

Lemma without_In (keys : list string) (key k : string) :
  In k (without keys key) <-> In k keys /\ k <> key.
Proof.
  unfold without. rewrite filter_In. split; intros [H1 H2]; split; try assumption.
  - intros ->. now rewrite String.eqb_refl in H2.
  - apply negb_true_iff. now apply String.eqb_neq.
Qed.


End PopupFacts.

(** ** Numbers and their text *)

Module NumberFacts.
Import JS DigitFacts TextFacts Notions.

Lemma ten_nonzero : ~ (ten == 0)%Q.
Proof. discriminate. Qed.

Lemma dec_value_eq (m m' : N) (e e' : Z) :
  (inject_Z (Z.of_N m) * ten ^ e == inject_Z (Z.of_N m') * ten ^ e')%Q ->
  dec_value m e = dec_value m' e'.
Proof. intros H. unfold dec_value. now apply Q2Qc_eq_iff. Qed.

(** Zeros at the end of the digits are worth as much in the exponent. *)
Lemma dec_value_shift (m : N) (j : nat) (e : Z) :
  dec_value (m * 10 ^ N.of_nat j) e = dec_value m (e + Z.of_nat j).
Proof.
  apply dec_value_eq. fold ten.
  rewrite (Qpower_plus ten e (Z.of_nat j) ten_nonzero).
  unfold ten at 3. rewrite <- (Zpower_Qpower 10 (Z.of_nat j)) by lia.
  rewrite N2Z.inj_mul, N2Z.inj_pow, nat_N_Z. change (Z.of_N 10) with 10.
  rewrite inject_Z_mult. ring.
Qed.

Lemma prefix_digit (d : N) (t : string) :
  is_digitval d -> String.prefix "Infinity" (String (digit_char d) t) = false.
Proof. intros H. each_digit H; reflexivity. Qed.

(** Digits with no fraction after them. *)
Lemma parse_unsigned_integer (d : N) (ip : list N) (r : string) :
  Forall is_digitval (d :: ip) ->
  starts_with_digit r = false ->
  starts_with_dot r = false ->
  parse_unsigned (digits_str (d :: ip) +:+ r)
  = Some (Num (dec_value (of_digits (d :: ip)) (parse_exponent r))).
Proof.
  intros Hds Hr Hdot. unfold parse_unsigned.
  cbn [digits_str]. rewrite append_String.
  rewrite prefix_digit by (now inversion Hds).
  change (String (digit_char d) (digits_str ip +:+ r))
    with (digits_str (d :: ip) +:+ r).
  rewrite (take_digits_str _ _ Hds Hr).
  assert (E : match r with
              | String "."%char t => take_digits t
              | _ => ([], r)
              end = ([], r)).
  { destruct r as [|c r]; [reflexivity|].
    destruct c as [[] [] [] [] [] [] [] []]; try reflexivity.
    discriminate. }
  rewrite E. rewrite app_nil_r. cbn [length]. now rewrite Z.sub_0_r.
Qed.

(** Digits, a dot and the digits of a fraction. *)
Lemma parse_unsigned_fraction (d : N) (ip fp : list N) (r : string) :
  Forall is_digitval (d :: ip) ->
  Forall is_digitval fp ->
  starts_with_digit r = false ->
  parse_unsigned (digits_str (d :: ip) +:+ "." +:+ digits_str fp +:+ r)
  = Some (Num (dec_value (of_digits ((d :: ip) ++ fp))
                         (parse_exponent r - Z.of_nat (length fp)))).
Proof.
  intros Hds Hfp Hr. unfold parse_unsigned.
  cbn [digits_str]. rewrite append_String.
  rewrite prefix_digit by (now inversion Hds).
  change (String (digit_char d)
            (digits_str ip +:+ "." +:+ digits_str fp +:+ r))
    with (digits_str (d :: ip) +:+ String "." (digits_str fp +:+ r)).
  rewrite (take_digits_str _ _ Hds) by reflexivity.
  now rewrite (take_digits_str _ _ Hfp Hr).
Qed.

Lemma parse_exponent_nil : parse_exponent "" = 0.
Proof. reflexivity. Qed.

(** The exponent part that [format] writes reads back as the exponent. *)
Lemma parse_exponent_text (e : Z) :
  parse_exponent
    ("e" +:+ (if e <? 0 then "-" else "+") +:+
     digits_str (to_digits (Z.to_N (Z.abs e))))
  = e.
Proof.
  pose proof (to_digits_digits (Z.to_N (Z.abs e))) as Hd.
  pose proof (of_to_digits (Z.to_N (Z.abs e))) as Hv.
  pose proof (to_digits_nonnil (Z.to_N (Z.abs e))) as Hn.
  destruct (Z.ltb_spec e 0) as [Hneg | Hpos].
  - change (parse_exponent
              (String "e" (String "-"
                 (digits_str (to_digits (Z.to_N (Z.abs e)))))) = e).
    cbn [parse_exponent Ascii.eqb Bool.eqb orb parse_sign].
    rewrite (take_digits_all _ Hd).
    destruct (to_digits (Z.to_N (Z.abs e))) as [|x l]; [contradiction|].
    rewrite Hv. lia.
  - change (parse_exponent
              (String "e" (String "+"
                 (digits_str (to_digits (Z.to_N (Z.abs e)))))) = e).
    cbn [parse_exponent Ascii.eqb Bool.eqb orb parse_sign].
    rewrite (take_digits_all _ Hd).
    destruct (to_digits (Z.to_N (Z.abs e))) as [|x l]; [contradiction|].
    rewrite Hv. lia.
Qed.

Lemma zeros_digits (j : nat) : Forall is_digitval (repeat 0%N j).
Proof.
  induction j as [|j IH]; cbn; constructor; [|assumption].
  unfold is_digitval. lia.
Qed.

Lemma exponent_text_start (s : string) :
  starts_with_digit ("e" +:+ s) = false /\ starts_with_dot ("e" +:+ s) = false.
Proof. split; reflexivity. Qed.

(** What [format] writes, [parseFloat] reads back. *)
Lemma parse_format (ds : list N) (n : Z) :
  ds <> [] ->
  Forall is_digitval ds ->
  parse_unsigned (format ds n)
  = Some (Num (dec_value (of_digits ds) (n - Z.of_nat (length ds)))).
Proof.
  intros Hne Hds. destruct ds as [|d r]; [contradiction|]. clear Hne.
  unfold format.
  assert (large_or_small :
    parse_unsigned
      (let e := n - 1 in
       let es := (if e <? 0 then "-" else "+") +:+
                 digits_str (to_digits (Z.to_N (Z.abs e))) in
       match d :: r with
       | [] => EmptyString
       | [d] => digits_str [d] +:+ "e" +:+ es
       | d :: r => digits_str [d] +:+ "." +:+ digits_str r +:+ "e" +:+ es
       end)
    = Some (Num (dec_value (of_digits (d :: r))
                           (n - Z.of_nat (length (d :: r)))))).
  { cbv zeta. destruct r as [|d2 r].
    + rewrite parse_unsigned_integer;
        [| assumption | apply exponent_text_start ..].
      rewrite parse_exponent_text. do 3 f_equal; cbn [length] in *; lia.
    + rewrite parse_unsigned_fraction;
        [| repeat constructor; now inversion Hds
         | now inversion Hds | apply exponent_text_start].
      rewrite parse_exponent_text. do 3 f_equal; cbn [length] in *; lia. }
  destruct (Z.leb_spec (Z.of_nat (length (d :: r))) n) as [Hkn | Hkn];
    destruct (Z.leb_spec n 21) as [H21 | H21]; cbn [andb];
    rewrite ?andb_false_r.
  - (* plain digits *)
    rewrite <- (append_nil_r (digits_str _)).
    change ((d :: r) ++ ?z) with (d :: (r ++ z)).
    rewrite parse_unsigned_integer; try reflexivity.
    + rewrite parse_exponent_nil. do 2 f_equal.
      change (d :: (r ++ ?z)) with ((d :: r) ++ z).
      rewrite of_digits_app, of_digits_zeros, repeat_length, N.add_0_r.
      rewrite dec_value_shift. f_equal. lia.
    + change (d :: (r ++ ?z)) with ((d :: r) ++ z).
      apply Forall_app. split; [assumption | apply zeros_digits].
  - (* exponent notation, large *)
    assert (E : (n <=? 0) = false) by (apply Z.leb_gt; lia).
    rewrite E, andb_false_r. apply large_or_small.
  - (* digits around a decimal point *)
    destruct (Z.ltb_spec 0 n) as [H0 | H0]; cbn [andb].
    + destruct (Z.to_nat n) as [|n'] eqn:En; [lia|].
      cbn [firstn skipn].
      rewrite <- (append_nil_r (digits_str (skipn n' r))).
      inversion Hds as [|? ? Hd Hr]; subst.
      rewrite parse_unsigned_fraction; try reflexivity.
      * rewrite parse_exponent_nil.
        change ((d :: firstn n' r) ++ skipn n' r)
          with (d :: (firstn n' r ++ skipn n' r)).
        rewrite firstn_skipn, length_skipn. do 3 f_equal.
        cbn [length] in *. lia.
      * constructor; [assumption | now apply Forall_take].
      * now apply Forall_drop.
    + destruct (Z.ltb_spec (-6) n) as [H6 | H6]; cbn [andb].
      * destruct (Z.leb_spec n 0); [|lia].
        change ("0." +:+ ?s) with (digits_str [0%N] +:+ "." +:+ s).
        rewrite <- (append_nil_r (digits_str (_ ++ _))).
        rewrite parse_unsigned_fraction; try reflexivity.
        -- rewrite parse_exponent_nil.
           assert (E : of_digits ([0%N] ++ repeat 0%N (Z.to_nat (- n))
                                  ++ d :: r) = of_digits (d :: r)).
           { rewrite !of_digits_app, of_digits_zeros. cbn. lia. }
           rewrite E, length_app, repeat_length. do 3 f_equal.
           cbn [length] in *. lia.
        -- repeat constructor.
        -- apply Forall_app. split; [apply zeros_digits | assumption].
      * (* exponent notation, small *)
        apply large_or_small.
  - assert (E : (n <=? 0) = false) by (apply Z.leb_gt; lia).
    rewrite E, andb_false_r. apply large_or_small.
Qed.

(** *** The decimal expansion of a finite value *)

Lemma bits_bound (d : Z) : 0 < d -> d < 2 ^ Z.of_nat (bits d).
Proof.
  intros Hd. unfold bits.
  pose proof (Z.log2_nonneg d). pose proof (Z.log2_spec d Hd) as [_ H2].
  replace (Z.of_nat (S (Z.to_nat (Z.log2 d)))) with (Z.succ (Z.log2 d))
    by lia.
  exact H2.
Qed.

Lemma gcd_ten_nontrivial (d j : Z) :
  1 < d -> 0 <= j -> (d | 10 ^ j) -> 2 <= Z.gcd d 10.
Proof.
  intros Hd Hj Hdiv.
  pose proof (Z.gcd_nonneg d 10) as Hnn.
  assert (Z.gcd d 10 <> 0).
  { intros E. apply Z.gcd_eq_0_l in E. lia. }
  assert (Z.gcd d 10 <> 1); [|lia].
  intros E. pose proof (Z.coprime_pow_r d 10 j Hj E) as Hrel.
  apply Z.divide_gcd_iff in Hdiv; [|lia].
  unfold Z.coprime in Hrel. lia.
Qed.

(** [scale_loop] ends on every denominator that divides a power of ten,
    with the value [n / d * 10^(k' - k)] as an integer. *)
Lemma scale_loop_ok (fuel : nat) :
  forall n d k j,
    0 < d -> d < 2 ^ Z.of_nat fuel -> 0 <= j -> (d | 10 ^ j) ->
    exists m' k',
      scale_loop fuel n d k = Some (m', k') /\ k <= k' /\
      m' * d = n * 10 ^ (k' - k).
Proof.
  induction fuel as [|f IH]; intros n d k j Hd Hlt Hj Hdiv.
  - cbn in Hlt. lia.
  - cbn [scale_loop]. destruct (Z.eqb_spec d 1) as [-> | Hne].
    + exists n, k. rewrite Z.sub_diag. split; [reflexivity | lia].
    + pose proof (gcd_ten_nontrivial d j ltac:(lia) Hj Hdiv) as Hg.
      destruct (Z.eqb_spec (Z.gcd d 10) 1) as [E | _]; [lia|].
      set (g := Z.gcd d 10) in *.
      assert (Hgd : d = g * (d / g)).
      { apply Zdivide_Zdiv_eq; [lia | apply Z.gcd_divide_l]. }
      assert (Hg10 : 10 = g * (10 / g)).
      { apply Zdivide_Zdiv_eq; [lia | apply Z.gcd_divide_r]. }
      assert (Hpos : 0 < d / g) by nia.
      assert (Hlt' : d / g < 2 ^ Z.of_nat f).
      { replace (Z.of_nat (S f)) with (Z.succ (Z.of_nat f)) in Hlt by lia.
        rewrite Z.pow_succ_r in Hlt by lia. nia. }
      assert (Hdiv' : (d / g | 10 ^ j)).
      { apply Z.divide_trans with d; [|assumption].
        exists g. exact Hgd. }
      destruct (IH (n * (10 / g)) (d / g) (k + 1) j Hpos Hlt' Hj Hdiv')
        as (m' & k' & Hrun & Hk & Hval).
      exists m', k'. split; [assumption|]. split; [lia|].
      replace (k' - k) with (Z.succ (k' - (k + 1))) by lia.
      rewrite Z.pow_succ_r by lia.
      rewrite Hgd at 1.
      replace (m' * (g * (d / g))) with (g * (m' * (d / g))) by ring.
      rewrite Hval.
      replace (n * (10 * 10 ^ (k' - (k + 1))))
        with (n * (g * (10 / g)) * 10 ^ (k' - (k + 1)))
        by (rewrite <- Hg10; ring).
      ring.
Qed.

(** [strip_zeros] keeps the value [s * 10^z]. *)
Lemma strip_zeros_spec (fuel : nat) :
  forall s z s' z',
    strip_zeros fuel s z = (s', z') ->
    z <= z' /\ s = s' * 10 ^ (z' - z) /\ (0 < s -> 0 < s').
Proof.
  induction fuel as [|f IH]; intros s z s' z' H; cbn [strip_zeros] in H.
  - inversion H; subst. rewrite Z.sub_diag. split; [lia|]. split; lia.
  - destruct (Z.eqb_spec (s mod 10) 0) as [Hmod | Hmod];
      destruct (Z.eqb_spec s 0) as [Hs | Hs]; cbn [andb negb] in H;
      try (inversion H; subst; rewrite Z.sub_diag; split; [lia|];
           split; lia).
    destruct (IH _ _ _ _ H) as (Hz & Hval & Hpos).
    assert (Hs10 : s = 10 * (s / 10)).
    { pose proof (Z.div_mod s 10 ltac:(lia)). lia. }
    split; [lia|]. split.
    + replace (z' - z) with (Z.succ (z' - (z + 1))) by lia.
      rewrite Z.pow_succ_r by lia. rewrite Hs10 at 1. rewrite Hval at 1.
      ring.
    + intros Hsp. apply Hpos. lia.
Qed.

Lemma pow10_inject (j : Z) : 0 <= j -> (ten ^ j == inject_Z (10 ^ j))%Q.
Proof. intros Hj. unfold ten. symmetry. now apply Zpower_Qpower. Qed.

Lemma pow10_pos (j : Z) : 0 <= j -> 0 < 10 ^ j.
Proof. intros Hj. apply Z.pow_pos_nonneg; lia. Qed.

(** [x = a / K] as an equation between integers. *)
Lemma fraction_iff (x : Q) (a K : Z) :
  0 < K ->
  (x == inject_Z a * / inject_Z K)%Q <-> Qnum x * K = a * Zpos (Qden x).
Proof.
  intros HK. destruct K as [|p|p]; try lia.
  unfold Qeq. cbn. rewrite Z.mul_1_r. reflexivity.
Qed.

(** [m * 10^e] as a fraction with a power of ten below. *)
Lemma dec_value_fraction (m : N) (e : Z) :
  exists M j,
    0 <= j /\ ((0 < m)%N -> 0 < M) /\
    (inject_Z (Z.of_N m) * ten ^ e == inject_Z M * / inject_Z (10 ^ j))%Q.
Proof.
  destruct (Z.le_gt_cases 0 e) as [He | He].
  - exists (Z.of_N m * 10 ^ e), 0. split; [lia|]. split.
    + intros Hm. pose proof (pow10_pos e He). nia.
    + rewrite (pow10_inject e He), inject_Z_mult.
      change (inject_Z (10 ^ 0)) with 1%Q. field.
  - exists (Z.of_N m), (- e). split; [lia|]. split; [lia|].
    replace e with (- - e) at 1 by lia.
    rewrite Qpower_opp, (pow10_inject (- e)) by lia. reflexivity.
Qed.

Lemma Qc_coprime (q : Qc) : Z.gcd (Qnum q) (Zpos (Qden q)) = 1.
Proof. apply Qred_iff. apply canon. Qed.

Lemma dec_value_this (m : N) (e : Z) :
  (this (dec_value m e) == inject_Z (Z.of_N m) * ten ^ e)%Q.
Proof. unfold dec_value. cbn [this]. apply Qred_correct. Qed.

(** The expansion [decimal_of] finds for a finite decimal is exact. *)
Lemma decimal_of_spec (q : Qc) (m : N) (e : Z) :
  q = dec_value m e -> (0 < m)%N ->
  exists s e',
    decimal_of q = (s, e') /\ 0 < s /\ q = dec_value (Z.to_N s) e'.
Proof.
  intros Hq Hm.
  destruct (dec_value_fraction m e) as (M & j & Hj & HM & Hfrac).
  specialize (HM Hm).
  pose proof (dec_value_this m e) as Hthis. rewrite <- Hq, Hfrac in Hthis.
  apply (proj1 (fraction_iff q M (10 ^ j) (pow10_pos j Hj))) in Hthis.
  set (n := Qnum q) in *. set (d := Zpos (Qden q)) in *.
  assert (Hd : 0 < d) by (unfold d; lia).
  assert (Hn : 0 < n).
  { pose proof (pow10_pos j Hj). nia. }
  assert (Hdiv : (d | 10 ^ j)).
  { apply Z.gauss with n.
    - exists M. exact Hthis.
    - rewrite Z.gcd_comm. apply Qc_coprime. }
  destruct (scale_loop_ok (bits d) n d 0 j Hd (bits_bound d Hd) Hj Hdiv)
    as (m' & k' & Hrun & Hk & Hval).
  rewrite Z.sub_0_r in Hval.
  assert (Hm' : 0 < m').
  { pose proof (pow10_pos k' Hk). nia. }
  destruct (strip_zeros (bits m') m' 0) as [s z] eqn:Hstrip.
  destruct (strip_zeros_spec _ _ _ _ _ Hstrip) as (Hz & Hs & Hpos).
  rewrite Z.sub_0_r in Hs. specialize (Hpos Hm').
  exists s, (z - k'). split; [|split; [assumption|]].
  - unfold decimal_of. fold n d. rewrite Hrun, Hstrip. reflexivity.
  - apply Qc_is_canon. rewrite dec_value_this, Z2N.id by lia.
    unfold Z.sub. rewrite (Qpower_plus ten z (- k') ten_nonzero).
    rewrite Qpower_opp, !pow10_inject by lia.
    rewrite Qmult_assoc, <- inject_Z_mult, <- Hs.
    apply (proj2 (fraction_iff q m' (10 ^ k') (pow10_pos k' Hk))).
    fold n d. lia.
Qed.

(** *** Reading back the text of a number *)

Lemma format_head (d : N) (r : list N) (n : Z) :
  is_digitval d ->
  exists d' t, is_digitval d' /\ format (d :: r) n = String (digit_char d') t.
Proof.
  intros Hd. unfold format.
  destruct ((Z.of_nat (length (d :: r)) <=? n) && (n <=? 21)).
  { exists d. eexists. split; [assumption | reflexivity]. }
  destruct (Z.ltb_spec 0 n) as [H0 | H0]; cbn [andb].
  - destruct (n <=? 21).
    + destruct (Z.to_nat n) as [|n'] eqn:En; [lia|].
      exists d. eexists. split; [assumption | reflexivity].
    + destruct ((-6 <? n) && (n <=? 0)).
      * exists 0%N. eexists. split; [reflexivity | reflexivity].
      * exists d. destruct r; eexists; (split; [assumption | reflexivity]).
  - destruct ((-6 <? n) && (n <=? 0)).
    + exists 0%N. eexists. split; [reflexivity | reflexivity].
    + exists d. destruct r; eexists; (split; [assumption | reflexivity]).
Qed.

Lemma parseFloat_digit_head (d : N) (t : string) :
  is_digitval d ->
  parseFloat (String (digit_char d) t)
  = match parse_unsigned (String (digit_char d) t) with
    | Some x => x
    | None => NaN
    end.
Proof. intros H. each_digit H; reflexivity. Qed.

Lemma dec_value_zero (e : Z) : dec_value 0 e = Q2Qc 0.
Proof.
  apply Qc_is_canon. rewrite dec_value_this.
  change (inject_Z (Z.of_N 0)) with 0%Q. apply Qmult_0_l.
Qed.

Lemma dec_value_pos (m : N) (e : Z) : (0 < m)%N -> (0 < dec_value m e)%Q.
Proof.
  intros Hm. rewrite dec_value_this. apply Qmult_lt_0_compat.
  - change 0%Q with (inject_Z 0). rewrite <- Zlt_Qlt. lia.
  - now apply Qpower_0_lt.
Qed.

Lemma Qc_sign_pos (q : Qc) : (0 < q)%Q -> Qc_sign q = Gt.
Proof. intros H. unfold Qc_sign. now apply Qgt_alt. Qed.

(** Number::toString followed by parseFloat is the identity on the finite
    values [m * 10^e]. *)
Lemma parseFloat_toString (q : Qc) (m : N) (e : Z) :
  q = dec_value m e -> parseFloat (toString (Num q)) = Num q.
Proof.
  intros Hq. destruct (N.eq_0_gt_0_cases m) as [-> | Hm].
  - rewrite dec_value_zero in Hq. subst q. same_number.
  - assert (Hpos : (0 < q)%Q) by (rewrite Hq; now apply dec_value_pos).
    cbn [toString]. rewrite (Qc_sign_pos q Hpos).
    destruct (decimal_of_spec q m e Hq Hm) as (s & e' & Hdec & Hs & Hval).
    unfold pos_toString. rewrite Hdec.
    destruct (Z.eqb_spec s 0) as [E | _]; [lia|].
    pose proof (to_digits_digits (Z.to_N s)) as Hds.
    pose proof (to_digits_nonnil (Z.to_N s)) as Hne.
    pose proof (parse_format (to_digits (Z.to_N s))
                  (Z.of_nat (length (to_digits (Z.to_N s))) + e') Hne Hds)
      as Hparse.
    destruct (to_digits (Z.to_N s)) as [|d r] eqn:Edig; [contradiction|].
    destruct (format_head d r (Z.of_nat (length (d :: r)) + e'))
      as (d' & t & Hd' & Hfmt); [now inversion Hds|].
    rewrite Hfmt in *. rewrite (parseFloat_digit_head d' t Hd'), Hparse.
    f_equal. rewrite Hval. rewrite <- Edig, of_to_digits. f_equal. lia.
Qed.

Lemma format_no_dash (ds : list N) (n : Z) :
  Forall is_digitval ds -> -6 < n -> contains "-" (format ds n) = false.
Proof.
  intros Hds Hn. unfold format.
  destruct ((Z.of_nat (length ds) <=? n) && (n <=? 21)).
  { apply digits_str_no_dash. apply Forall_app.
    split; [assumption | apply zeros_digits]. }
  destruct ((0 <? n) && (n <=? 21)) eqn:Emid.
  { rewrite !contains_app, !digits_str_no_dash;
      [reflexivity | now apply Forall_drop | now apply Forall_take]. }
  destruct ((-6 <? n) && (n <=? 0)) eqn:Esmall.
  { rewrite !contains_app, digits_str_no_dash; [reflexivity|].
    apply Forall_app. split; [apply zeros_digits | assumption]. }
  assert (Hbig : 21 < n).
  { apply andb_false_iff in Emid, Esmall. lia. }
  destruct (Z.ltb_spec (n - 1) 0) as [|_]; [lia|].
  pose proof (to_digits_digits (Z.to_N (Z.abs (n - 1)))) as He.
  destruct ds as [|d [|d2 r]]; [reflexivity | |].
  - rewrite !contains_app, !digits_str_no_dash by assumption. reflexivity.
  - rewrite !contains_app, !digits_str_no_dash;
      [reflexivity | assumption | now inversion Hds
      | repeat constructor; now inversion Hds].
Qed.

(** The text of zero and of a finite value from a millionth up has no
    dash in it. *)
Lemma toString_no_dash (q : Qc) (m : N) (e : Z) :
  q = dec_value m e ->
  m = 0%N \/ (millionth <= q)%Q ->
  contains "-" (toString (Num q)) = false.
Proof.
  intros Hq Hsize. destruct (N.eq_0_gt_0_cases m) as [-> | Hm].
  - rewrite dec_value_zero in Hq. subst q. reflexivity.
  - destruct Hsize as [-> | Hsize]; [lia|].
    assert (Hpos : (0 < q)%Q) by (rewrite Hq; now apply dec_value_pos).
    cbn [toString]. rewrite (Qc_sign_pos q Hpos).
    destruct (decimal_of_spec q m e Hq Hm) as (s & e' & Hdec & Hs & Hval).
    unfold pos_toString. rewrite Hdec.
    destruct (Z.eqb_spec s 0) as [E | _]; [lia|].
    pose proof (to_digits_digits (Z.to_N s)) as Hds.
    apply format_no_dash; [assumption|].
    pose proof (of_digits_bound _ Hds) as Hbound.
    rewrite of_to_digits in Hbound.
    set (k := length (to_digits (Z.to_N s))) in *.
    apply Qpower_lt_compat_l_inv with ten; [|reflexivity].
    fold millionth. apply Qle_lt_trans with q; [assumption|].
    rewrite Hval at 1. rewrite dec_value_this, Z2N.id by lia.
    rewrite (Qpower_plus ten (Z.of_nat k) e' ten_nonzero).
    apply Qmult_lt_compat_r; [now apply Qpower_0_lt|].
    rewrite pow10_inject by lia. rewrite <- Zlt_Qlt. lia.
Qed.

End NumberFacts.

(** ** Writing a triple and reading it back *)

Module TripleFacts.
Import JS AreaUnit DigitFacts TextFacts AreaFacts NumberFacts Notions.

Lemma zero_decimal : zero = Num (dec_value 0 0).
Proof. unfold zero, of_Z. now rewrite dec_value_zero. Qed.


Lemma millionth_this : (this (dec_value 1 (-6)) == millionth)%Q.
Proof. reflexivity. Qed.

Lemma not_tiny_size (m : N) (e : Z) :
  Spec.tiny (Num (dec_value m e)) = false ->
  m = 0%N \/ (millionth <= dec_value m e)%Q.
Proof.
  intros H. destruct (N.eq_0_gt_0_cases m) as [-> | Hm]; [now left | right].
  pose proof (dec_value_pos m e Hm) as Hpos.
  unfold Spec.tiny, lt, zero, of_Z in H.
  change (this (Q2Qc (inject_Z 0))) with 0%Q in H.
  rewrite (proj1 (Qlt_alt 0 (dec_value m e)) Hpos) in H. cbn [andb] in H.
  destruct (Qcompare_spec (dec_value m e) (dec_value 1 (-6)))
    as [E | L | G]; try discriminate.
  - rewrite E. rewrite millionth_this. apply Qle_refl.
  - rewrite <- millionth_this. now apply Qlt_le_weak.
Qed.

Lemma printable_roundtrip (x : number) :
  printable x ->
  parseFloat (toString x) = x /\ contains "-" (toString x) = false.
Proof.
  intros [[-> | (m & e & ->)] Htiny]; [split; reflexivity|].
  split.
  - now apply parseFloat_toString with m e.
  - apply toString_no_dash with m e; [reflexivity|].
    now apply not_tiny_size.
Qed.

Lemma or_zero_id (x : number) : x <> NaN -> or_zero x = x.
Proof.
  intros Hx. unfold or_zero. destruct x as [| | |q]; try reflexivity.
  - contradiction.
  - cbn. destruct (Qeq_bool q 0) eqn:E; [|reflexivity].
    cbn. unfold zero, of_Z. now rewrite (Qeq_bool_zero q E).
Qed.

Lemma printable_not_NaN (x : number) : printable x -> x <> NaN.
Proof. intros [[-> | (m & e & ->)] _]; discriminate. Qed.

Lemma float_or_zero_text (x : number) :
  printable x -> Spec.float_or_zero (toString x) = x.
Proof.
  intros Hx. rewrite <- or_zero_float.
  rewrite (proj1 (printable_roundtrip x Hx)).
  apply or_zero_id. now apply printable_not_NaN.
Qed.

(** The triple [{a}-{b}-{c}] of three printable numbers reads back as
    [a*400 + b*100 + c]. *)
Lemma parse_triple_text (a b c : number) :
  printable a -> printable b -> printable c ->
  parseAreaToWah (VStr (Spec.triple_text a b c)) = Ok (Spec.scalar_of a b c).
Proof.
  intros Ha Hb Hc. rewrite parseAreaToWah_ok. f_equal.
  unfold Spec.parseToScalar, Spec.triple_text.
  change (toString a +:+ "-" +:+ toString b +:+ "-" +:+ toString c)
    with (toString a +:+ String "-" (toString b +:+ String "-" (toString c)))
    at 1.
  rewrite is_empty_app.
  rewrite split_three by (now apply printable_roundtrip).
  cbn [firstn map nth].
  now rewrite !float_or_zero_text.
Qed.

Lemma contains_trim_start (c : ascii) (s : string) :
  contains c s = false -> contains c (trim_start s) = false.
Proof.
  induction s as [|x s IH]; [reflexivity|].
  intros H. cbn [trim_start]. destruct (is_whitespace x); [|assumption].
  cbn [contains] in H. apply orb_false_iff in H as [_ H]. now apply IH.
Qed.

Lemma parse_unsigned_shape (s : string) :
  parse_unsigned s = None \/ parse_unsigned s = Some PInf \/
  exists m e, parse_unsigned s = Some (Num (dec_value m e)).
Proof.
  unfold parse_unsigned. destruct (String.prefix "Infinity" s); [now auto|].
  destruct (take_digits s) as [ip r1].
  destruct (match r1 with
            | String "."%char t => take_digits t
            | _ => ([], r1)
            end) as [fp r2].
  destruct ip as [|d ip]; [destruct fp as [|f fp]|]; eauto.
Qed.

(** A piece without a dash reads as NaN, as the positive infinity, or as a
    finite decimal that is not negative. *)
Lemma parseFloat_shape (p : string) :
  contains "-" p = false ->
  parseFloat p = NaN \/ parseFloat p = PInf \/
  exists m e, parseFloat p = Num (dec_value m e).
Proof.
  intros Hp. apply (contains_trim_start "-") in Hp. unfold parseFloat.
  destruct (trim_start p) as [|c t] eqn:Et.
  - left. reflexivity.
  - assert (Hsign : parse_sign (String c t) = (false, String c t)
                    \/ parse_sign (String c t) = (false, t)).
    { unfold parse_sign.
      destruct c as [[] [] [] [] [] [] [] []];
        first [ now left | now right | cbn in Hp; discriminate ]. }
    destruct Hsign as [-> | ->].
    + destruct (parse_unsigned_shape (String c t))
        as [-> | [-> | (m & e & ->)]]; eauto.
    + destruct (parse_unsigned_shape t) as [-> | [-> | (m & e & ->)]]; eauto.
Qed.

Lemma component_shape (s : string) (i : nat) :
  Spec.component s i = PInf \/
  exists m e, Spec.component s i = Num (dec_value m e).
Proof.
  unfold Spec.component.
  destruct (split "-" s !! i) as [p|] eqn:Ep.
  - pose proof (split_pieces "-" s) as Hall.
    rewrite Forall_lookup in Hall. specialize (Hall i p Ep). cbn in Hall.
    unfold Spec.float_or_zero.
    destruct (parseFloat_shape p Hall) as [-> | [-> | (m & e & ->)]].
    + right. exists 0%N, 0. apply zero_decimal.
    + now left.
    + right. eauto.
  - right. exists 0%N, 0. apply zero_decimal.
Qed.

Lemma strict_eq_zero (x : number) : strict_eq x zero = true -> x = zero.
Proof.
  destruct x as [| | |q]; try discriminate.
  cbn. intros H. unfold zero, of_Z. now rewrite (Qeq_bool_zero q H).
Qed.

(** Normalizing for storage keeps the scalar of every string that has no
    tiny component. *)
Lemma normalize_keeps_scalar (s : string) :
  Spec.tiny (Spec.component s 0) = false ->
  Spec.tiny (Spec.component s 1) = false ->
  Spec.tiny (Spec.component s 2) = false ->
  parseAreaToWah (VStr (Spec.normalizeForStorage s))
  = parseAreaToWah (VStr s).
Proof.
  intros H0 H1 H2. rewrite (parseAreaToWah_ok (VStr s)).
  rewrite parseToScalar_components. unfold Spec.normalizeForStorage.
  destruct (strict_eq (Spec.component s 0) zero
            && strict_eq (Spec.component s 1) zero
            && strict_eq (Spec.component s 2) zero) eqn:Ez.
  - apply andb_true_iff in Ez as [Ez E2].
    apply andb_true_iff in Ez as [E0 E1].
    rewrite (strict_eq_zero _ E0), (strict_eq_zero _ E1),
      (strict_eq_zero _ E2).
    same_number.
  - apply parse_triple_text; (split; [apply component_shape | assumption]).
Qed.

End TripleFacts.

(** ** From a scalar to its text and back *)

Module RoundTripFacts.
Import JS AreaUnit DigitFacts TextFacts AreaFacts NumberFacts TripleFacts Notions.

Lemma this_Q2Qc (q : Q) : (this (Q2Qc q) == q)%Q.
Proof. apply Qred_correct. Qed.

Lemma this_plus (a b : Qc) : (this (a + b)%Qc == a + b)%Q.
Proof. apply Qred_correct. Qed.

Lemma this_mult (a b : Qc) : (this (a * b)%Qc == a * b)%Q.
Proof. apply Qred_correct. Qed.

Lemma this_minus (a b : Qc) : (this (a - b)%Qc == a - b)%Q.
Proof.
  unfold Qcminus, Qcplus, Qcopp. cbn [this Q2Qc].
  now rewrite !Qred_correct.
Qed.

Lemma this_div (a b : Qc) : (this (a / b)%Qc == a / b)%Q.
Proof.
  unfold Qcdiv, Qcmult, Qcinv. cbn [this Q2Qc].
  now rewrite !Qred_correct.
Qed.

Lemma this_qz (z : Z) : (this (qz z) == inject_Z z)%Q.
Proof. apply this_Q2Qc. Qed.

Lemma div_const (x : Qc) (c : Z) :
  0 < c -> div (Num x) (of_Z c) = Num (x / qz c)%Qc.
Proof.
  intros Hc. unfold div, of_Z. fold (qz c).
  assert (E : Qc_sign (qz c) = Gt).
  { apply Qc_sign_pos. rewrite this_qz.
    change 0%Q with (inject_Z 0). rewrite <- Zlt_Qlt. lia. }
  now rewrite E.
Qed.

Lemma mul_of_Z (a b : Z) : mul (of_Z a) (of_Z b) = Num (qz a * qz b)%Qc.
Proof. reflexivity. Qed.


Lemma sub_num (p q : Qc) : sub (Num p) (Num q) = Num (p - q)%Qc.
Proof. reflexivity. Qed.













End RoundTripFacts.

(** * The claims *)

Import JS AreaUnit LandUsePopup Notions.
Import TextFacts AreaFacts PopupFacts NumberFacts TripleFacts RoundTripFacts.










(** C5, as amended: the text [12-2-41] is worth [12*400 + 2*100 + 41 = 5041]
    wah, and 5041 wah is written [12-2-41]. *)
Theorem worked_example_5041 :
  parseAreaToWah (VStr "12-2-41") = Ok (of_Z 5041) /\
  wahToAreaStr (of_Z 5041) = "12-2-41".
Proof. split; same_number. Qed.

(** C5, as stated, fails: [12-2-41] is not worth 4841 wah, and 4841 wah is
    not written [12-2-41]. *)
Lemma worked_example_4841_fails :
  ~ (parseAreaToWah (VStr "12-2-41") = Ok (of_Z 4841) /\
     wahToAreaStr (of_Z 4841) = "12-2-41").
Proof. intros [_ H]. vm_compute in H. discriminate. Qed.



(** C7, at the input on which it fails: [parseAreaToWah] and
    [parseAreaParts] test the type of their argument and return on every
    value, but [normalizeAreaStr] tests only that it is truthy, and given
    the number 5 it calls a [split] that a number does not have, and
    throws; so does saving an allocation in which an area is that
    number. *)
Theorem normalizeAreaStr_throws_on_number :
  (forall v : value, exists x, parseAreaToWah v = Ok x) /\
  (forall v : value, exists p, parseAreaParts v = Ok p) /\
  normalizeAreaStr (VNum (of_Z 5)) = Throw TypeError /\
  handleSave stored_number_state = Throw TypeError.
Proof.
  split; [|split; [|split; [|reflexivity]]].
  - intros v. eexists. apply parseAreaToWah_ok.
  - intros v. unfold parseAreaParts.
    destruct v as [| |b|x|s|]; cbn [is_string negb];
      rewrite ?orb_true_r, ?orb_false_r; try (eexists; reflexivity).
    cbn [truthy call_split bind].
    destruct (is_empty s); cbn [negb]; eexists; reflexivity.
  - reflexivity.
Qed.


(** C9: joinParts is the inverse companion of splitToParts: three strings
    without a dash, joined and split again, come back as they were, an
    empty one as an empty part; [12], [0] and the empty string join to
    [12-0-], which splits into [12], [0] and the empty string. *)
Theorem splitToParts_joinParts (r n w : string) :
  contains "-" r = false ->
  contains "-" n = false ->
  contains "-" w = false ->
  parseAreaParts (VStr (partsToStr r n w))
  = Ok {| rai := r; ngan := n; wah := w |} /\
  partsToStr "12" "0" "" = "12-0-" /\
  parseAreaParts (VStr "12-0-") = Ok {| rai := "12"; ngan := "0"; wah := "" |}.
Proof.
  intros Hr Hn Hw. split; [|split; reflexivity].
  rewrite partsToStr_text. unfold parseAreaParts.
  cbn [truthy is_string negb call_split]. rewrite orb_false_r.
  change (r +:+ "-" +:+ n +:+ "-" +:+ w)
    with (r +:+ String "-" (n +:+ String "-" w)) at 1.
  rewrite is_empty_app. cbn [negb bind]. unfold dash.
  rewrite (split_three r n w Hr Hn Hw). cbn [lookup list_lookup].
  now rewrite !part_field_some.
Qed.

Lemma splitToParts_joinParts_witness :
  parseAreaParts (VStr (partsToStr "12" "0" ""))
  = Ok {| rai := "12"; ngan := "0"; wah := "" |} /\
  partsToStr "12" "0" "" = "12-0-" /\
  parseAreaParts (VStr "12-0-") = Ok {| rai := "12"; ngan := "0"; wah := "" |}.
Proof.
  apply (splitToParts_joinParts "12" "0" ""); reflexivity.
Defined.

(** C10, as amended: storage normalization preserves the measured area of
    every string none of whose three components is a positive number below
    a millionth: for such a string [s],
    [parseToScalar(normalizeForStorage(s)) = parseToScalar(s)]. *)
Theorem storage_keeps_scalar (s : string) :
  Spec.tiny (Spec.component s 0) = false ->
  Spec.tiny (Spec.component s 1) = false ->
  Spec.tiny (Spec.component s 2) = false ->
  (let* t := normalizeAreaStr (VStr s) in parseAreaToWah (VStr t))
  = parseAreaToWah (VStr s).
Proof.
  intros H0 H1 H2. rewrite normalizeAreaStr_string. cbn [bind].
  now apply normalize_keeps_scalar.
Qed.

Lemma storage_keeps_scalar_witness :
  (let* t := normalizeAreaStr (VStr "007-x-1.50") in parseAreaToWah (VStr t))
  = parseAreaToWah (VStr "007-x-1.50").
Proof.
  apply (storage_keeps_scalar "007-x-1.50"); reflexivity.
Defined.

(** C10, as stated, fails: a ten-millionth of a rai is stored as
    [1e-7-0-0], whose dash in the exponent splits it into the components 1
    and 7: 1100 wah, for an area of 0.00004 wah. *)
Lemma storage_changes_tiny_scalar :
  normalizeAreaStr (VStr "0.0000001-0-0") = Ok "1e-7-0-0" /\
  parseAreaToWah (VStr "1e-7-0-0") = Ok (of_Z 1100) /\
  parseAreaToWah (VStr "0.0000001-0-0") = Ok (Num (Q2Qc (1 # 25000))) /\
  (let* t := normalizeAreaStr (VStr "0.0000001-0-0") in
   parseAreaToWah (VStr t))
  <> parseAreaToWah (VStr "0.0000001-0-0").
Proof.
  split; [reflexivity|]. split; [same_number|]. split; [same_number|].
  intros H. vm_compute in H. inversion H.
Qed.

(** * Further properties *)

(** ** The text functions of a row *)

Module InputFacts.
Import JS AreaUnit AreaInput Notions MoreNotions DigitFacts TextFacts AreaFacts.

Lemma keep_chars_all (p : ascii -> bool) (s : string) :
  all_chars p (keep_chars p s) = true.
Proof.
  induction s as [|c s IH]; [reflexivity|].
  cbn [keep_chars]. destruct (p c) eqn:E; [|assumption].
  cbn [all_chars]. now rewrite E.
Qed.

Lemma keep_chars_id (p : ascii -> bool) (s : string) :
  all_chars p s = true -> keep_chars p s = s.
Proof.
  induction s as [|c s IH]; [reflexivity|].
  cbn [all_chars keep_chars]. intros H. apply andb_true_iff in H as [H1 H2].
  now rewrite H1, (IH H2).
Qed.

Lemma all_chars_weaken (p q : ascii -> bool) (s : string) :
  (forall c, p c = true -> q c = true) ->
  all_chars p s = true -> all_chars q s = true.
Proof.
  intros Hpq. induction s as [|c s IH]; [reflexivity|].
  cbn [all_chars]. intros H. apply andb_true_iff in H as [H1 H2].
  now rewrite (Hpq c H1), (IH H2).
Qed.

Lemma all_chars_app (p : ascii -> bool) (a b : string) :
  all_chars p (a +:+ b) = all_chars p a && all_chars p b.
Proof.
  induction a as [|c a IH]; [reflexivity|].
  rewrite append_String. cbn [all_chars]. rewrite IH.
  now rewrite andb_assoc.
Qed.

Lemma all_chars_take (p : ascii -> bool) (n : nat) (s : string) :
  all_chars p s = true -> all_chars p (str_take n s) = true.
Proof.
  revert s. induction n as [|n IH]; intros [|c s]; try reflexivity.
  cbn [all_chars str_take]. intros H. apply andb_true_iff in H as [H1 H2].
  now rewrite H1, (IH s H2).
Qed.

Lemma str_take_length (n : nat) (s : string) :
  (String.length (str_take n s) <= n)%nat.
Proof.
  revert s. induction n as [|n IH]; intros [|c s]; cbn; try lia.
  specialize (IH s). lia.
Qed.

Lemma str_take_all (n : nat) (s : string) :
  (String.length s <= n)%nat -> str_take n s = s.
Proof.
  revert s. induction n as [|n IH]; intros [|c s]; cbn; try reflexivity;
    try lia.
  intros H. rewrite IH; [reflexivity | lia].
Qed.

Lemma str_take_app (a b : string) : str_take (String.length a) (a +:+ b) = a.
Proof.
  induction a as [|c a IH]; [now destruct b|].
  rewrite append_String. cbn [String.length str_take]. now rewrite IH.
Qed.

Lemma str_drop_app (a b : string) : str_drop (String.length a) (a +:+ b) = b.
Proof.
  induction a as [|c a IH]; [now destruct b|].
  rewrite append_String. cbn [String.length str_drop]. exact IH.
Qed.

Lemma length_app (a b : string) :
  String.length (a +:+ b) = (String.length a + String.length b)%nat.
Proof.
  induction a as [|c a IH]; [reflexivity|].
  rewrite append_String. cbn [String.length]. now rewrite IH.
Qed.

(** [slice(0, n)] and [slice(n)] around a cut of the string. *)
Lemma slice_prefix (a b : string) :
  slice (a +:+ b) 0 (Z.of_nat (String.length a)) = a.
Proof.
  unfold slice, clamp_index. rewrite length_app.
  destruct (Z.ltb_spec 0 0); [lia|].
  destruct (Z.ltb_spec (Z.of_nat (String.length a)) 0); [lia|].
  rewrite Z.min_l by lia. rewrite Z.min_l by lia.
  rewrite Z.sub_0_r, Nat2Z.id. cbn [Z.to_nat str_drop].
  replace (str_drop 0 (a +:+ b)) with (a +:+ b) by (now destruct (a +:+ b)).
  apply str_take_app.
Qed.

Lemma slice_from_suffix (a b : string) :
  slice_from (a +:+ b) (Z.of_nat (String.length a)) = b.
Proof.
  unfold slice_from, slice, clamp_index. rewrite length_app.
  destruct (Z.ltb_spec (Z.of_nat (String.length a)) 0); [lia|].
  destruct (Z.ltb_spec (Z.of_nat (String.length a + String.length b)) 0);
    [lia|].
  rewrite Z.min_id, (Z.min_l (Z.of_nat (String.length a))) by lia.
  rewrite Nat2Z.id, str_drop_app.
  apply str_take_all. lia.
Qed.

Lemma slice_first_two (s : string) : slice s 0 2 = str_take 2 s.
Proof.
  unfold slice, clamp_index. cbn [Z.ltb Z.compare].
  rewrite (Z.min_l 0) by lia. rewrite Z.sub_0_r.
  change (Z.to_nat 0) with 0%nat.
  replace (str_drop 0 s) with s by (now destruct s).
  destruct (Z.le_gt_cases 2 (Z.of_nat (String.length s))) as [H | H].
  - rewrite Z.min_l by lia. reflexivity.
  - rewrite Z.min_r by lia. rewrite Nat2Z.id.
    rewrite str_take_all by lia. symmetry. apply str_take_all. lia.
Qed.

Lemma indexOf_absent (c : ascii) (s : string) :
  contains c s = false -> indexOf c s = -1.
Proof.
  induction s as [|a s IH]; [reflexivity|].
  cbn [contains indexOf]. intros H. apply orb_false_iff in H as [H1 H2].
  now rewrite H1, (IH H2).
Qed.

Lemma indexOf_present (c : ascii) (s : string) :
  contains c s = true ->
  exists a b : string,
    s = a +:+ String c b /\ contains c a = false /\
    indexOf c s = Z.of_nat (String.length a).
Proof.
  induction s as [|x s IH]; [discriminate|].
  cbn [contains indexOf]. destruct (Ascii.eqb_spec x c) as [-> | Hne].
  - intros _. exists EmptyString, s. now split.
  - cbn [orb]. intros H. destruct (IH H) as (a & b & -> & Ha & Hi).
    exists (String x a), b. split; [reflexivity|]. split.
    + cbn [contains]. rewrite Ha.
      now destruct (Ascii.eqb_spec x c).
    + rewrite Hi. destruct (Z.eqb_spec (Z.of_nat (String.length a)) (-1));
        [lia|]. cbn [String.length]. lia.
Qed.




Lemma digits_no_char (c : ascii) (s : string) :
  is_digit c = false -> all_chars is_digit s = true -> contains c s = false.
Proof.
  intros Hc. induction s as [|x s IH]; [reflexivity|].
  cbn [all_chars contains]. intros H. apply andb_true_iff in H as [Hx Hs].
  rewrite (IH Hs), orb_false_r.
  destruct (Ascii.eqb_spec x c) as [-> | _]; [congruence | reflexivity].
Qed.

Lemma no_dot_digits (s : string) :
  all_chars digit_or_dot s = true -> contains "." s = false ->
  all_chars is_digit s = true.
Proof.
  induction s as [|x s IH]; [reflexivity|].
  cbn [all_chars contains]. intros H1 H2.
  apply andb_true_iff in H1 as [Hx Hs]. apply orb_false_iff in H2 as [Ex Es].
  rewrite (IH Hs Es), andb_true_r.
  unfold digit_or_dot, is_dot in Hx. rewrite Ex, orb_false_r in Hx. exact Hx.
Qed.

Lemma keep_not_dot_digits (s : string) :
  all_chars digit_or_dot s = true ->
  all_chars is_digit (keep_chars not_dot s) = true.
Proof.
  induction s as [|x s IH]; [reflexivity|].
  cbn [all_chars keep_chars]. intros H. apply andb_true_iff in H as [Hx Hs].
  unfold not_dot at 1. destruct (is_dot x) eqn:Ex; cbn [negb];
    [now apply IH|].
  cbn [all_chars]. rewrite (IH Hs), andb_true_r.
  unfold digit_or_dot in Hx. now rewrite Ex, orb_false_r in Hx.
Qed.

Lemma digits_keep_not_dot (s : string) :
  all_chars is_digit s = true -> keep_chars not_dot s = s.
Proof.
  intros H. apply keep_chars_id.
  apply all_chars_weaken with is_digit; [|assumption].
  intros c Hc. unfold not_dot, is_dot.
  destruct (Ascii.eqb_spec c ".") as [-> | _]; [discriminate | reflexivity].
Qed.

(** The wah field after [handleChange], by the place of the first dot. *)
Lemma wah_final (raw : string) (st : fields) :
  let c := keep_chars digit_or_dot raw in
  (contains "." c = false /\
   localWah (fst (handleChange "wah" raw st)) = c) \/
  (exists a b : string,
     c = a +:+ String "." b /\ contains "." a = false /\
     localWah (fst (handleChange "wah" raw st))
     = a +:+ "." +:+ str_take 2 (keep_chars not_dot b)).
Proof.
  intros c. unfold handleChange.
  change (String.eqb "wah" "wah") with true. cbv iota. fold c.
  destruct (contains "." c) eqn:Ec.
  - right. destruct (indexOf_present "." c Ec) as (a & b & Hc & Ha & Hi).
    exists a, b. split; [assumption|]. split; [assumption|].
    rewrite Hi. destruct (Z.eqb_spec (Z.of_nat (String.length a)) (-1));
      [lia|]. cbn [negb fst localWah].
    rewrite Hc.
    change (a +:+ String "." b) with (a +:+ "." +:+ b).
    rewrite <- append_assoc.
    assert (El : Z.of_nat (String.length a) + 1
                 = Z.of_nat (String.length (a +:+ "."))).
    { rewrite length_app. cbn [String.length]. lia. }
    rewrite El, slice_prefix, slice_from_suffix, slice_first_two.
    now rewrite append_assoc.
  - left. split; [reflexivity|].
    rewrite (indexOf_absent "." c Ec). reflexivity.
Qed.

Lemma wah_final_text (raw : string) (st : fields) :
  wah_text (localWah (fst (handleChange "wah" raw st))).
Proof.
  pose proof (keep_chars_all digit_or_dot raw) as Hall.
  destruct (wah_final raw st) as [[Hno ->] | (a & b & Hc & Ha & ->)].
  - left. now apply no_dot_digits.
  - right. rewrite Hc in Hall.
    change (a +:+ String "." b) with (a +:+ "." +:+ b) in Hall.
    rewrite !all_chars_app in Hall.
    apply andb_true_iff in Hall as [Hall_a Hall_b].
    apply andb_true_iff in Hall_b as [_ Hall_b].
    exists a, (str_take 2 (keep_chars not_dot b)).
    split; [reflexivity|]. split; [now apply no_dot_digits|]. split.
    + apply all_chars_take. now apply keep_not_dot_digits.
    + apply str_take_length.
Qed.

Lemma first_cut_unique (c : ascii) (a a' b b' : string) :
  a +:+ String c b = a' +:+ String c b' ->
  contains c a = false -> contains c a' = false -> a = a' /\ b = b'.
Proof.
  revert a'. induction a as [|x a IH]; intros [|x' a'] H Ha Ha'.
  - rewrite !append_nil_l in H. now inversion H.
  - rewrite append_nil_l, append_String in H. inversion H; subst.
    cbn [contains] in Ha'. now rewrite Ascii.eqb_refl in Ha'.
  - rewrite append_nil_l, append_String in H. inversion H; subst.
    cbn [contains] in Ha. now rewrite Ascii.eqb_refl in Ha.
  - rewrite !append_String in H. inversion H; subst.
    cbn [contains] in Ha, Ha'.
    apply orb_false_iff in Ha as [_ Ha]. apply orb_false_iff in Ha' as [_ Ha'].
    destruct (IH a' H2 Ha Ha') as [-> ->]. now split.
Qed.

(** A text of the form of a wah field is kept as it is typed. *)
Lemma wah_text_kept (w : string) (st : fields) :
  wah_text w -> localWah (fst (handleChange "wah" w st)) = w.
Proof.
  intros [Hd | (a & b & -> & Ha & Hb & Hlen)].
  - assert (Hall : all_chars digit_or_dot w = true).
    { apply all_chars_weaken with is_digit; [|assumption].
      intros c Hc. unfold digit_or_dot. now rewrite Hc. }
    destruct (wah_final w st) as [[_ ->] | (a & b & Hc & _ & _)].
    + now apply keep_chars_id.
    + rewrite (keep_chars_id _ _ Hall) in Hc.
      pose proof (digits_no_char "." w eq_refl Hd) as Hno.
      rewrite Hc in Hno.
      change (a +:+ String "." b) with (a +:+ "." +:+ b) in Hno.
      rewrite !contains_app in Hno. cbn in Hno.
      now rewrite orb_true_r in Hno.
  - assert (Hall : all_chars digit_or_dot (a +:+ "." +:+ b) = true).
    { rewrite !all_chars_app.
      rewrite (all_chars_weaken is_digit digit_or_dot a),
        (all_chars_weaken is_digit digit_or_dot b); try assumption;
        try reflexivity;
        intros c Hc; unfold digit_or_dot; now rewrite Hc. }
    destruct (wah_final (a +:+ "." +:+ b) st)
      as [[Hno _] | (a' & b' & Hc & Ha' & ->)];
      rewrite (keep_chars_id _ _ Hall) in *.
    + rewrite !contains_app in Hno. cbn in Hno.
      now rewrite orb_true_r in Hno.
    + change (a +:+ "." +:+ b) with (a +:+ String "." b) in Hc.
      destruct (first_cut_unique "." a a' b b' Hc) as [<- <-];
        [now apply digits_no_char | assumption |].
      rewrite (digits_keep_not_dot b Hb), str_take_all by assumption.
      reflexivity.
Qed.


Lemma wah_text_no_dash (w : string) : wah_text w -> contains "-" w = false.
Proof.
  intros [Hd | (a & b & -> & Ha & Hb & _)].
  - now apply digits_no_char.
  - rewrite !contains_app.
    rewrite (digits_no_char "-" a), (digits_no_char "-" b) by easy.
    reflexivity.
Qed.

Lemma parseAreaParts_joined (r n w : string) :
  contains "-" r = false -> contains "-" n = false ->
  contains "-" w = false ->
  parseAreaParts (VStr (partsToStr r n w))
  = Ok {| rai := r; ngan := n; wah := w |}.
Proof.
  intros Hr Hn Hw. rewrite partsToStr_text. unfold parseAreaParts.
  cbn [truthy is_string negb call_split]. rewrite orb_false_r.
  change (r +:+ "-" +:+ n +:+ "-" +:+ w)
    with (r +:+ String "-" (n +:+ String "-" w)) at 1.
  rewrite is_empty_app. cbn [negb bind]. unfold dash.
  rewrite (split_three r n w Hr Hn Hw). cbn [lookup list_lookup].
  now rewrite !part_field_some.
Qed.

Lemma part_field_no_dash (ps : list string) (i : nat) :
  Forall (fun p => contains "-" p = false) ps ->
  contains "-" (part_field (ps !! i)) = false.
Proof.
  intros Hall. destruct (ps !! i) as [p|] eqn:E; [|reflexivity].
  rewrite part_field_some. rewrite Forall_lookup in Hall.
  exact (Hall i p E).
Qed.

(** The parts any value splits into hold no dash. *)
Lemma parseAreaParts_no_dash (v : value) :
  exists p : parts,
    parseAreaParts v = Ok p /\
    contains "-" (rai p) = false /\ contains "-" (ngan p) = false /\
    contains "-" (wah p) = false.
Proof.
  unfold parseAreaParts.
  destruct v as [| |b|x|s|]; cbn [is_string negb];
    rewrite ?orb_true_r, ?orb_false_r;
    try (eexists; split; [reflexivity | now repeat split]).
  cbn [truthy call_split]. destruct (is_empty s); cbn [negb bind].
  - eexists; split; [reflexivity | now repeat split].
  - eexists; split; [reflexivity|]. cbn [rai ngan wah]. unfold dash.
    pose proof (split_pieces "-" s) as Hall.
    repeat split; now apply part_field_no_dash.
Qed.

Lemma mount_state (v : value) :
  exists st : fields,
    mount v = Ok st /\ dash_free st /\ committedRef st = v /\
    parseAreaParts v = Ok (shown st).
Proof.
  destruct (parseAreaParts_no_dash v) as (p & Hp & Hr & Hn & Hw).
  unfold mount. rewrite Hp. cbn [bind]. eexists. split; [reflexivity|].
  split; [now repeat split|]. split; [reflexivity|]. now destruct p.
Qed.

Lemma cleaned_no_dash (raw : string) :
  contains "-" (keep_chars is_digit raw) = false.
Proof. apply digits_no_char; [reflexivity | apply keep_chars_all]. Qed.

(** One edit keeps the dashes out, and commits a text that splits into the
    three fields. *)
Lemma handleChange_step (field raw : string) (st : fields) :
  dash_free st ->
  let st' := fst (handleChange field raw st) in
  dash_free st' /\
  committedRef st' = VStr (snd (handleChange field raw st)) /\
  parseAreaParts (committedRef st') = Ok (shown st').
Proof.
  intros (Hr & Hn & Hw).
  pose proof (wah_text_no_dash _ (wah_final_text raw st)) as Hfinal.
  pose proof (cleaned_no_dash raw) as Hclean.
  unfold handleChange in *.
  destruct (String.eqb field "wah"); [|destruct (String.eqb field "rai")];
    cbn [fst snd localRai localNgan localWah committedRef shown] in *;
    (split; [now repeat split|]); (split; [reflexivity|]);
    now apply parseAreaParts_joined.
Qed.

Lemma edits_invariant (es : list (string * string)) :
  forall st : fields,
    dash_free st ->
    parseAreaParts (committedRef st) = Ok (shown st) ->
    dash_free (edits es st) /\
    parseAreaParts (committedRef (edits es st)) = Ok (shown (edits es st)).
Proof.
  induction es as [|[field raw] es IH]; intros st Hfree Hsplit.
  - now split.
  - cbn [edits fold_left fst snd].
    destruct (handleChange_step field raw st Hfree) as (Hfree' & _ & Hsplit').
    exact (IH _ Hfree' Hsplit').
Qed.

End InputFacts.

(** ** The numbers a row can stand for *)

Module TypedFacts.
Import JS AreaUnit AreaInput Notions MoreNotions.
Import DigitFacts TextFacts AreaFacts NumberFacts TripleFacts RoundTripFacts.
Import InputFacts.












Lemma clean_dash_free (st : fields) : clean st -> dash_free st.
Proof.
  intros (Hr & Hn & Hw). repeat split.
  - now apply digits_no_char.
  - now apply digits_no_char.
  - now apply wah_text_no_dash.
Qed.




End TypedFacts.

(** ** Sums of areas and the selection *)

Module SelectionFacts.
Import JS AreaUnit LandUsePopup Notions MoreNotions.
Import AreaFacts PopupFacts NumberFacts TripleFacts RoundTripFacts.









Lemma without_NoDup (keys : list string) (key : string) :
  List.NoDup keys -> List.NoDup (without keys key).
Proof. intros H. unfold without. now apply List.NoDup_filter. Qed.

Lemma includes_false (keys : list string) (key : string) :
  includes keys key = false <-> ~ In key keys.
Proof.
  rewrite <- includes_In. destruct (includes keys key); split; congruence.
Qed.


End SelectionFacts.

(** ** What is saved *)

Module SaveFacts.
Import JS AreaUnit LandUsePopup Notions MoreNotions.
Import TextFacts AreaFacts PopupFacts NumberFacts TripleFacts RoundTripFacts.

(** The components of the text of three printable numbers. *)
Lemma triple_components (a b c : number) :
  printable a -> printable b -> printable c ->
  Spec.component (Spec.triple_text a b c) 0 = a /\
  Spec.component (Spec.triple_text a b c) 1 = b /\
  Spec.component (Spec.triple_text a b c) 2 = c.
Proof.
  intros Ha Hb Hc. unfold Spec.component, Spec.triple_text.
  rewrite split_three by (now apply printable_roundtrip).
  cbn [lookup list_lookup]. now rewrite !float_or_zero_text.
Qed.

Lemma normalizeForStorage_idem (s : string) :
  no_tiny s ->
  Spec.normalizeForStorage (Spec.normalizeForStorage s)
  = Spec.normalizeForStorage s.
Proof.
  intros (H0 & H1 & H2). unfold Spec.normalizeForStorage at 2 3.
  destruct (strict_eq (Spec.component s 0) zero
            && strict_eq (Spec.component s 1) zero
            && strict_eq (Spec.component s 2) zero) eqn:Ez; [reflexivity|].
  unfold Spec.normalizeForStorage.
  destruct (triple_components (Spec.component s 0) (Spec.component s 1)
              (Spec.component s 2)) as (-> & -> & ->);
    try (split; [apply component_shape | assumption]).
  now rewrite Ez.
Qed.

(** [normalizeAreaStr] throws on what is truthy and no string, and on
    nothing else. *)
Lemma normalizeAreaStr_cases (v : value) :
  (truthy v = true /\ is_string v = false /\
   normalizeAreaStr v = Throw TypeError) \/
  ((truthy v = false \/ is_string v = true) /\
   exists n : string, normalizeAreaStr v = Ok n).
Proof.
  destruct v as [| |b|x|s|].
  - right. split; [now left | now exists ""].
  - right. split; [now left | now exists ""].
  - destruct b; [left; now repeat split | right].
    split; [now left | now exists ""].
  - unfold normalizeAreaStr. cbn [truthy is_string].
    destruct (truthy_num x); [left; now repeat split | right].
    split; [now left | now exists ""].
  - right. split; [now right|]. eexists. apply normalizeAreaStr_string.
  - left. now repeat split.
Qed.

Lemma handleSave_reduce (st : state) :
  handleSave st
  = let* cleanAreas := reduce save_step (map_to_list (areas st)) ∅ in
    Ok (selected st, cleanAreas).
Proof. reflexivity. Qed.

Lemma reduce_save_throw (l : list (string * value)) :
  forall c0 : gmap string string,
    (exists kv, In kv l /\ truthy (snd kv) = true /\
                is_string (snd kv) = false) ->
    reduce save_step l c0 = Throw TypeError.
Proof.
  induction l as [|a l IH]; intros c0 (kv & Hin & Ht & Hs);
    [contradiction|].
  cbn [reduce]. unfold save_step at 1.
  destruct (normalizeAreaStr_cases (snd a))
    as [(_ & _ & ->) | (Hgood & n & ->)]; [reflexivity|].
  cbn [bind]. apply IH. destruct Hin as [-> | Hin]; [|now exists kv].
  destruct Hgood; congruence.
Qed.

Lemma reduce_save_total (l : list (string * value)) :
  (forall kv, In kv l -> truthy (snd kv) = false \/ is_string (snd kv) = true) ->
  forall c0 : gmap string string,
    exists c : gmap string string, reduce save_step l c0 = Ok c.
Proof.
  induction l as [|a l IH]; intros Hgood c0; [now exists c0|].
  cbn [reduce]. unfold save_step at 1.
  destruct (normalizeAreaStr_cases (snd a))
    as [(Ht & Hs & _) | (_ & n & ->)].
  - destruct (Hgood a (or_introl eq_refl)); congruence.
  - cbn [bind]. apply IH. intros kv Hin. apply Hgood. now right.
Qed.

(** An entry that is saved comes from an entry of the areas, or was there
    before. *)
Lemma reduce_save_sound (l : list (string * value)) :
  forall (c0 c : gmap string string) (k n : string),
    reduce save_step l c0 = Ok c ->
    c !! k = Some n ->
    (exists v, In (k, v) l /\ normalizeAreaStr v = Ok n /\ n <> "") \/
    c0 !! k = Some n.
Proof.
  induction l as [|[k0 v0] l IH]; intros c0 c k n Hred Hk.
  - cbn in Hred. injection Hred as <-. now right.
  - cbn [reduce] in Hred. unfold save_step at 1 in Hred. cbn [fst snd] in Hred.
    destruct (normalizeAreaStr v0) as [n0|e] eqn:En; [|discriminate].
    cbn [bind] in Hred.
    destruct (IH _ _ _ _ Hred Hk) as [(v & Hin & Hv & Hne) | Hc1].
    + left. exists v. split; [now right | now split].
    + destruct n0 as [|x n0]; cbn [is_empty negb] in Hc1; [now right|].
      destruct (decide (k = k0)) as [-> | Hne].
      * rewrite lookup_insert_eq in Hc1. injection Hc1 as <-.
        left. exists v0. split; [now left | now split].
      * rewrite lookup_insert_ne in Hc1 by congruence. now right.
Qed.

Lemma reduce_save_other (l : list (string * value)) :
  forall (c0 c : gmap string string) (k : string),
    reduce save_step l c0 = Ok c ->
    ~ In k (fst <$> l) ->
    c !! k = c0 !! k.
Proof.
  induction l as [|[k0 v0] l IH]; intros c0 c k Hred Hk.
  - cbn in Hred. now injection Hred as <-.
  - cbn [reduce] in Hred. unfold save_step at 1 in Hred. cbn [fst snd] in Hred.
    destruct (normalizeAreaStr v0) as [n0|e] eqn:En; [|discriminate].
    cbn [bind] in Hred. rewrite fmap_cons in Hk. cbn [fst] in Hk.
    rewrite (IH _ _ _ Hred) by (intros H; apply Hk; now right).
    destruct (negb (is_empty n0)); [|reflexivity].
    apply lookup_insert_ne. intros ->. apply Hk. now left.
Qed.

(** With distinct keys, every entry that normalizes to a text is saved. *)
Lemma reduce_save_complete (l : list (string * value)) :
  List.NoDup (fst <$> l) ->
  forall (c0 c : gmap string string) (k n : string) (v : value),
    reduce save_step l c0 = Ok c ->
    In (k, v) l -> normalizeAreaStr v = Ok n -> n <> "" ->
    c !! k = Some n.
Proof.
  induction l as [|[k0 v0] l IH]; intros Hnd c0 c k n v Hred Hin Hv Hne;
    [contradiction|].
  rewrite fmap_cons in Hnd. cbn [fst] in Hnd. apply List.NoDup_cons_iff in Hnd as [Hk0 Hnd].
  cbn [reduce] in Hred. unfold save_step at 1 in Hred. cbn [fst snd] in Hred.
  destruct (normalizeAreaStr v0) as [n0|e] eqn:En; [|discriminate].
  cbn [bind] in Hred. destruct Hin as [E | Hin].
  - injection E as -> ->. rewrite (reduce_save_other _ _ _ _ Hred Hk0).
    rewrite Hv in En. injection En as <-.
    destruct n as [|x n]; [contradiction|].
    cbn [is_empty negb]. apply lookup_insert_eq.
  - exact (IH Hnd _ _ _ _ _ Hred Hin Hv Hne).
Qed.

Lemma In_map_to_list (m : gmap string value) (k : string) (v : value) :
  In (k, v) (map_to_list m) <-> m !! k = Some v.
Proof. rewrite <- elem_of_map_to_list. symmetry. apply list_elem_of_In. Qed.

(** [handleSave] on areas that are all strings or falsy. *)
Lemma handleSave_ok (st : state) :
  (forall k v, areas st !! k = Some v ->
               truthy v = false \/ is_string v = true) ->
  exists clean : gmap string string,
    handleSave st = Ok (selected st, clean) /\
    forall k n,
      clean !! k = Some n <->
      exists v, areas st !! k = Some v /\ normalizeAreaStr v = Ok n /\ n <> "".
Proof.
  intros Hgood. rewrite handleSave_reduce.
  destruct (reduce_save_total (map_to_list (areas st))) with (c0 := ∅ : gmap string string)
    as (clean & Hred).
  { intros [k v] Hin. apply (Hgood k v). now apply In_map_to_list. }
  exists clean. rewrite Hred. split; [reflexivity|]. intros k n. split.
  - intros Hk.
    destruct (reduce_save_sound _ _ _ _ _ Hred Hk)
      as [(v & Hin & Hv & Hne) | Hempty].
    + exists v. split; [now apply In_map_to_list | now split].
    + now rewrite lookup_empty in Hempty.
  - intros (v & Hin & Hv & Hne).
    apply (reduce_save_complete (map_to_list (areas st))) with ∅ v;
      try assumption.
    + apply NoDup_ListNoDup, NoDup_fst_map_to_list.
    + now apply In_map_to_list.
Qed.

Lemma handleSave_throw (st : state) :
  (exists k v, areas st !! k = Some v /\ truthy v = true /\
               is_string v = false) ->
  handleSave st = Throw TypeError.
Proof.
  intros (k & v & Hk & Ht & Hs). rewrite handleSave_reduce.
  rewrite reduce_save_throw; [reflexivity|].
  exists (k, v). split; [now apply In_map_to_list | now split].
Qed.

End SaveFacts.

(** ** Hundredths are written and read back exactly *)

Module ExactFacts.
Import JS AreaUnit LandUsePopup Notions MoreNotions.
Import TextFacts AreaFacts PopupFacts NumberFacts TripleFacts RoundTripFacts.
Import TypedFacts SelectionFacts.









End ExactFacts.

(** ** The handlers of the editor *)

Module HandlerFacts.
Import JS AreaUnit LandUsePopup Notions MoreNotions.
Import TextFacts AreaFacts PopupFacts NumberFacts TripleFacts RoundTripFacts.
Import SelectionFacts SaveFacts.

Lemma includes_without (keys : list string) (key k : string) :
  includes (without keys key) k = includes keys k && negb (String.eqb k key).
Proof.
  apply eq_true_iff_eq. rewrite andb_true_iff, negb_true_iff.
  rewrite !includes_In, without_In, String.eqb_neq. reflexivity.
Qed.

Lemma includes_app (keys : list string) (key k : string) :
  includes (keys ++ [key]) k = includes keys k || String.eqb k key.
Proof.
  unfold includes. rewrite existsb_app. cbn [existsb].
  now rewrite orb_false_r.
Qed.

(** Every entry is a string or falsy, or one is neither. *)
Lemma good_or_bad_list (l : list (string * value)) :
  (forall kv, In kv l -> truthy (snd kv) = false \/ is_string (snd kv) = true)
  \/ (exists kv, In kv l /\ truthy (snd kv) = true /\
                  is_string (snd kv) = false).
Proof.
  induction l as [|a l [IH | (kv & Hin & Hbad)]].
  - left. intros kv [].
  - destruct (truthy (snd a)) eqn:Et, (is_string (snd a)) eqn:Es;
      try (left; intros kv [<- | Hin]; [tauto | now apply IH]).
    right. exists a. split; [now left | now split].
  - right. exists kv. split; [now right | assumption].
Qed.

Lemma good_or_bad (st : state) :
  (forall k v, areas st !! k = Some v ->
               truthy v = false \/ is_string v = true)
  \/ (exists k v, areas st !! k = Some v /\ truthy v = true /\
                   is_string v = false).
Proof.
  destruct (good_or_bad_list (map_to_list (areas st)))
    as [Hgood | ([k v] & Hin & Hbad)].
  - left. intros k v Hk. apply (Hgood (k, v)). now apply In_map_to_list.
  - right. exists k, v. split; [now apply In_map_to_list | assumption].
Qed.

(** A text that was saved is a string normalized, and normalizes to
    itself when that string had no tiny component. *)
Lemma saved_text_origin (v : value) (n : string) :
  normalizeAreaStr v = Ok n -> n <> "" ->
  exists s : string, v = VStr s /\ n = Spec.normalizeForStorage s.
Proof.
  intros Hv Hne. destruct v as [| |b|x|s|];
    try (cbn in Hv; congruence).
  - destruct b; cbn in Hv; congruence.
  - unfold normalizeAreaStr in Hv. cbn [truthy] in Hv.
    destruct (truthy_num x); cbn in Hv; congruence.
  - exists s. split; [reflexivity|].
    rewrite normalizeAreaStr_string in Hv. congruence.
Qed.

(** When [handleSave] throws, and what it hands over when it does not. *)
Lemma handleSave_cases (st : state) :
  (handleSave st = Throw TypeError <->
   exists k v, areas st !! k = Some v /\ truthy v = true /\
               is_string v = false) /\
  (forall saved : list string * gmap string string,
     handleSave st = Ok saved ->
     fst saved = selected st /\
     forall k n,
       snd saved !! k = Some n <->
       exists v, areas st !! k = Some v /\ normalizeAreaStr v = Ok n /\
                 n <> "").
Proof.
  destruct (good_or_bad st) as [Hgood | Hbad].
  - destruct (handleSave_ok st Hgood) as (clean & Hsave & Hclean).
    split.
    + split; [congruence|]. intros (k & v & Hk & Ht & Hs).
      destruct (Hgood k v Hk); congruence.
    + intros saved E. rewrite Hsave in E. injection E as <-.
      split; [reflexivity | exact Hclean].
  - pose proof (handleSave_throw st Hbad) as Hthrow. split.
    + split; [now intros _ | now intros _].
    + intros saved E. congruence.
Qed.

End HandlerFacts.

(** ** The order of the layers *)

Module LayerFacts.
Import JS Json Layers MoreNotions.

Lemma findIndex_first {A} (p : A -> bool) (pre : list A) (x : A)
  (post : list A) :
  Forall (fun y => p y = false) pre -> p x = true ->
  findIndex p (pre ++ x :: post) = Z.of_nat (length pre).
Proof.
  intros Hpre Hx. induction Hpre as [|y pre Hy _ IH].
  - cbn. now rewrite Hx.
  - cbn [app findIndex length]. rewrite Hy, IH.
    destruct (Z.eqb_spec (Z.of_nat (length pre)) (-1)); lia.
Qed.

Lemma findIndex_none {A} (p : A -> bool) (xs : list A) :
  Forall (fun y => p y = false) xs -> findIndex p xs = -1.
Proof.
  induction 1 as [|y xs Hy _ IH]; [reflexivity|].
  cbn [findIndex]. now rewrite Hy, IH.
Qed.

(** A list has no element [p] holds of, or a first one. *)
Lemma first_or_none {A} (p : A -> bool) (xs : list A) :
  Forall (fun y => p y = false) xs \/
  exists pre x post,
    xs = pre ++ x :: post /\ Forall (fun y => p y = false) pre /\
    p x = true.
Proof.
  induction xs as [|y xs [IH | (pre & x & post & -> & Hpre & Hx)]].
  - left. constructor.
  - destruct (p y) eqn:Hy.
    + right. exists [], y, xs. now repeat split.
    + left. now constructor.
  - destruct (p y) eqn:Hy.
    + right. exists [], y, (pre ++ x :: post). now repeat split.
    + right. exists (y :: pre), x, post. repeat split; [|assumption].
      now constructor.
Qed.

Lemma insert_pair_down {A} (pre : list A) (a b c d : A) (post : list A) :
  <[S (length pre) := d]> (<[length pre := c]> (pre ++ a :: b :: post))
  = pre ++ c :: d :: post.
Proof.
  induction pre as [|x pre IH]; [reflexivity|].
  cbn. f_equal. exact IH.
Qed.

Lemma insert_pair_up {A} (pre : list A) (a b c d : A) (post : list A) :
  <[length pre := c]> (<[S (length pre) := d]> (pre ++ a :: b :: post))
  = pre ++ c :: d :: post.
Proof.
  induction pre as [|x pre IH]; [reflexivity|].
  cbn. f_equal. exact IH.
Qed.

Lemma lookup_middle_next {A} (pre : list A) (a b : A) (post : list A) :
  (pre ++ a :: b :: post) !! length pre = Some a /\
  (pre ++ a :: b :: post) !! S (length pre) = Some b.
Proof. induction pre as [|x pre IH]; [now split | exact IH]. Qed.

Lemma last_cases {A} (xs : list A) :
  xs = [] \/ exists pre x, xs = pre ++ [x].
Proof.
  induction xs as [|x xs _] using rev_ind; [now left | right].
  now exists xs, x.
Qed.

(** A layer that is not the first changes places with the one above. *)
Lemma moved_up (target : Z) (v : view) (pre : list layer) (y x : layer)
  (post : list layer) :
  geojsonLayers v = pre ++ y :: x :: post ->
  Forall (fun l => has_id target l = false) pre ->
  has_id target y = false -> has_id target x = true ->
  geojsonLayers (moveLayer target "up" v) = pre ++ x :: y :: post.
Proof.
  intros Hprev Hpre Hy Hx. unfold moveLayer. cbn [geojsonLayers].
  rewrite Hprev.
  assert (Hidx : findIndex (has_id target) (pre ++ y :: x :: post)
                 = Z.of_nat (S (length pre))).
  { change (pre ++ y :: x :: post) with (pre ++ [y] ++ x :: post).
    rewrite app_assoc, findIndex_first; [| |assumption].
    2: { apply Forall_app. split; [assumption | now constructor]. }
    rewrite length_app. cbn [length]. f_equal. lia. }
  rewrite Hidx. cbn [String.eqb Ascii.eqb Bool.eqb].
  destruct (Z.eqb_spec (Z.of_nat (S (length pre))) (-1)) as [E | _]; [lia|].
  replace (Z.of_nat (S (length pre)) - 1) with (Z.of_nat (length pre)) by lia.
  destruct (Z.ltb_spec (Z.of_nat (length pre)) 0) as [E | _]; [lia|].
  rewrite length_app. cbn [length orb].
  destruct (Z.geb_spec (Z.of_nat (length pre))
              (Z.of_nat (length pre + S (S (length post)))))
    as [E | _]; [lia|].
  rewrite !Nat2Z.id.
  destruct (lookup_middle_next pre y x post) as [-> ->].
  apply insert_pair_up.
Qed.

(** A layer that is not the last changes places with the one below. *)
Lemma moved_down (target : Z) (direction : string) (v : view)
  (pre : list layer) (x z : layer) (post : list layer) :
  String.eqb direction "up" = false ->
  geojsonLayers v = pre ++ x :: z :: post ->
  Forall (fun l => has_id target l = false) pre ->
  has_id target x = true ->
  geojsonLayers (moveLayer target direction v) = pre ++ z :: x :: post.
Proof.
  intros Hdir Hprev Hpre Hx. unfold moveLayer. cbn [geojsonLayers].
  rewrite Hprev, Hdir, (findIndex_first _ pre x (z :: post) Hpre Hx).
  destruct (Z.eqb_spec (Z.of_nat (length pre)) (-1)) as [E | _]; [lia|].
  replace (Z.of_nat (length pre) + 1) with (Z.of_nat (S (length pre))) by lia.
  destruct (Z.ltb_spec (Z.of_nat (S (length pre))) 0) as [E | _]; [lia|].
  rewrite length_app. cbn [length orb].
  destruct (Z.geb_spec (Z.of_nat (S (length pre)))
              (Z.of_nat (length pre + S (S (length post)))))
    as [E | _]; [lia|].
  rewrite !Nat2Z.id.
  destruct (lookup_middle_next pre x z post) as [-> ->].
  apply insert_pair_down.
Qed.

(** The first layer does not go up, nor the last one down, and a layer
    that is not there goes nowhere. *)
Lemma moved_top (target : Z) (v : view) (x : layer) (post : list layer) :
  geojsonLayers v = x :: post -> has_id target x = true ->
  geojsonLayers (moveLayer target "up" v) = geojsonLayers v.
Proof.
  intros Hprev Hx. unfold moveLayer. cbn [geojsonLayers].
  rewrite Hprev. cbn [findIndex]. rewrite Hx. reflexivity.
Qed.

Lemma moved_bottom (target : Z) (direction : string) (v : view)
  (pre : list layer) (x : layer) :
  String.eqb direction "up" = false ->
  geojsonLayers v = pre ++ [x] ->
  Forall (fun l => has_id target l = false) pre ->
  has_id target x = true ->
  geojsonLayers (moveLayer target direction v) = geojsonLayers v.
Proof.
  intros Hdir Hprev Hpre Hx. unfold moveLayer. cbn [geojsonLayers].
  rewrite Hprev, Hdir, (findIndex_first _ pre x [] Hpre Hx).
  destruct (Z.eqb_spec (Z.of_nat (length pre)) (-1)) as [E | _]; [lia|].
  rewrite length_app. cbn [length].
  destruct (Z.ltb_spec (Z.of_nat (length pre) + 1) 0) as [E | _]; [lia|].
  cbn [orb].
  destruct (Z.geb_spec (Z.of_nat (length pre) + 1)
              (Z.of_nat (length pre + 1))) as [_ | E]; [reflexivity | lia].
Qed.

Lemma moved_absent (target : Z) (direction : string) (v : view) :
  Forall (fun l => has_id target l = false) (geojsonLayers v) ->
  geojsonLayers (moveLayer target direction v) = geojsonLayers v.
Proof.
  intros H. unfold moveLayer. cbn [geojsonLayers].
  now rewrite (findIndex_none _ _ H).
Qed.

(** All in all, [moveLayer] leaves the layers as they are or exchanges two
    neighbours. *)
Lemma moveLayer_cases (target : Z) (direction : string) (v : view) :
  geojsonLayers (moveLayer target direction v) = geojsonLayers v \/
  exists pre a b post,
    geojsonLayers v = pre ++ a :: b :: post /\
    geojsonLayers (moveLayer target direction v) = pre ++ b :: a :: post.
Proof.
  destruct (first_or_none (has_id target) (geojsonLayers v))
    as [Hnone | (pre & x & post & Hprev & Hpre & Hx)].
  - left. now apply moved_absent.
  - destruct (String.eqb direction "up") eqn:Hdir.
    + apply String.eqb_eq in Hdir. subst direction.
      destruct (last_cases pre) as [-> | (pre' & y & ->)].
      * left. now apply moved_top with x post.
      * right. exists pre', y, x, post.
        rewrite <- app_assoc in Hprev. cbn [app] in Hprev.
        split; [assumption|].
        apply Forall_app in Hpre as [Hpre' Hy].
        apply moved_up; try assumption. now inversion Hy.
    + destruct post as [|z post].
      * left. now apply moved_bottom with pre x.
      * right. exists pre, x, z, post. split; [assumption|].
        now apply moved_down.
Qed.



Lemma toggle_twice (target : Z) (l : layer) :
  let flip l :=
    if has_id target l then
      {| id := id l; name := name l; data := data l; color := color l;
         visible := negb (visible l); featureCount := featureCount l;
         savedOnServer := savedOnServer l |}
    else l in
  flip (flip l) = l.
Proof.
  cbv zeta. destruct l as [i n d c vis fc sos]. unfold has_id. cbn.
  destruct (i =? target) eqn:E; cbn; rewrite E;
    [now rewrite negb_involutive | reflexivity].
Qed.

End LayerFacts.

(** ** Pages *)

Module PageFacts.
Import JS AreaInput AttributeTable Notions MoreNotions.
Import NumberFacts RoundTripFacts.

Lemma lt_of_Z (a b : Z) : lt (of_Z a) (of_Z b) = (a <? b).
Proof.
  unfold lt, of_Z. fold (qz a) (qz b).
  rewrite (Qcompare_comp (qz a) (inject_Z a) (this_qz a)
             (qz b) (inject_Z b) (this_qz b)).
  unfold Qcompare, Z.ltb. cbn [Qnum Qden inject_Z].
  now rewrite !Z.mul_1_r.
Qed.

Lemma Math_max_of_Z (a b : Z) : Math_max (of_Z a) (of_Z b) = of_Z (Z.max a b).
Proof.
  unfold Math_max. change (of_Z a) with (Num (qz a)) at 1.
  change (of_Z b) with (Num (qz b)) at 1. cbv iota beta.
  change (Num (qz a)) with (of_Z a). change (Num (qz b)) with (of_Z b).
  rewrite lt_of_Z. destruct (Z.ltb_spec a b); f_equal; lia.
Qed.

Lemma Math_min_of_Z (a b : Z) : Math_min (of_Z a) (of_Z b) = of_Z (Z.min a b).
Proof.
  unfold Math_min. change (of_Z a) with (Num (qz a)) at 1.
  change (of_Z b) with (Num (qz b)) at 1. cbv iota beta.
  change (Num (qz a)) with (of_Z a). change (Num (qz b)) with (of_Z b).
  rewrite lt_of_Z. destruct (Z.ltb_spec b a); f_equal; lia.
Qed.

Lemma add_of_Z (a b : Z) : add (of_Z a) (of_Z b) = of_Z (a + b).
Proof.
  unfold of_Z. cbn [add]. f_equal. apply Qc_is_canon.
  fold (qz a) (qz b) (qz (a + b)).
  now rewrite this_plus, !this_qz, inject_Z_plus.
Qed.

Lemma sub_of_Z (a b : Z) : sub (of_Z a) (of_Z b) = of_Z (a - b).
Proof.
  unfold of_Z. fold (qz a) (qz b) (qz (a - b)). rewrite sub_num.
  f_equal. apply Qc_is_canon.
  rewrite this_minus, !this_qz. unfold Z.sub.
  now rewrite inject_Z_plus, inject_Z_opp.
Qed.

Lemma mul_of_Z_Z (a b : Z) : mul (of_Z a) (of_Z b) = of_Z (a * b).
Proof.
  rewrite mul_of_Z. unfold of_Z. f_equal. apply Qc_is_canon.
  fold (qz (a * b)). now rewrite this_mult, !this_qz, inject_Z_mult.
Qed.

Lemma truncate_qz (z : Z) : truncate (qz z) = z.
Proof.
  unfold truncate.
  assert (F : Qfloor (qz z) = z).
  { rewrite (Qfloor_comp _ _ (this_qz z)). apply Qfloor_Z. }
  assert (C : Qceiling (qz z) = z).
  { rewrite (Qceiling_comp _ _ (this_qz z)). apply Qceiling_Z. }
  destruct (Qc_sign (qz z)); assumption.
Qed.

Lemma slice_index_of_Z (len z : Z) :
  slice_index len (of_Z z) = clamp_index len z.
Proof. unfold of_Z. fold (qz z). cbn [slice_index]. now rewrite truncate_qz. Qed.

(** The page [p] holds the fifty rows from the row [50 p] on, or as many
    as there are. *)
Lemma paged_of_Z {A} (rows : list A) (p : Z) :
  0 <= p ->
  paged rows (of_Z p) = take 50 (drop (Z.to_nat (50 * p)) rows).
Proof.
  intros Hp. unfold paged, array_slice, PAGE_SIZE.
  rewrite add_of_Z, !mul_of_Z_Z, !slice_index_of_Z.
  unfold clamp_index.
  destruct (Z.ltb_spec (p * 50) 0) as [E | _]; [lia|].
  destruct (Z.ltb_spec ((p + 1) * 50) 0) as [E | _]; [lia|].
  set (len := length rows).
  destruct (Z.le_gt_cases (Z.of_nat len) (p * 50)) as [Hout | Hin].
  - rewrite (Z.min_r (p * 50)), (Z.min_r ((p + 1) * 50)) by lia.
    rewrite Z.sub_diag, !drop_ge by (unfold len in *; lia).
    now rewrite !take_nil.
  - rewrite (Z.min_l (p * 50)) by lia.
    replace (Z.to_nat (50 * p)) with (Z.to_nat (p * 50)) by lia.
    destruct (Z.le_gt_cases ((p + 1) * 50) (Z.of_nat len)) as [Hfull | Hrest].
    + rewrite Z.min_l by lia.
      now replace (Z.to_nat ((p + 1) * 50 - p * 50)) with 50%nat by lia.
    + rewrite Z.min_r by lia.
      rewrite !take_ge; [reflexivity | |];
        rewrite List.length_skipn; unfold len in *; lia.
Qed.

(** The number of pages: the least [n >= 1] with room for all the rows. *)
Lemma totalPages_value {A} (rows : list A) :
  exists n : Z,
    totalPages rows = of_Z n /\ 1 <= n /\
    Z.of_nat (length rows) <= 50 * n /\
    (1 < n -> 50 * (n - 1) < Z.of_nat (length rows)).
Proof.
  unfold totalPages, PAGE_SIZE. set (len := Z.of_nat (length rows)).
  change (of_Z len) with (Num (qz len)).
  rewrite (div_const (qz len) 50) by lia. cbn [Math_ceil].
  set (c := Qceiling (qz len / qz 50)%Qc).
  rewrite Math_max_of_Z. exists (Z.max 1 c). split; [reflexivity|].
  pose proof (Qle_ceiling (qz len / qz 50)%Qc) as Hup.
  pose proof (Qceiling_lt (qz len / qz 50)%Qc) as Hlow.
  fold c in Hup, Hlow. rewrite this_div, !this_qz in Hup, Hlow.
  unfold Qdiv in Hup, Hlow.
  change (/ inject_Z 50)%Q with (1 # 50)%Q in Hup, Hlow.
  assert (U : (inject_Z len <= inject_Z (50 * c))%Q).
  { rewrite inject_Z_mult. change (inject_Z 50) with 50%Q. lra. }
  assert (L : (inject_Z (50 * (c - 1)) < inject_Z len)%Q).
  { rewrite inject_Z_mult. change (inject_Z 50) with 50%Q. lra. }
  rewrite <- Zle_Qle in U. rewrite <- Zlt_Qlt in L.
  repeat split; lia.
Qed.

(** The first [n] pages, one after the other, are the first [50 n] rows. *)
Lemma concat_pages {A} (rows : list A) (n : nat) :
  concat (map (fun p => take 50 (drop (50 * p) rows)) (seq 0 n))
  = take (50 * n) rows.
Proof.
  induction n as [|n IH]; [now rewrite Nat.mul_0_r|].
  rewrite seq_S, map_app, concat_app, IH. cbn [map concat Nat.add].
  rewrite app_nil_r, take_take_drop. f_equal. lia.
Qed.

Lemma of_Z_inj (a b : Z) : of_Z a = of_Z b -> a = b.
Proof.
  intros E.
  pose proof (lt_of_Z a b) as H1. pose proof (lt_of_Z b a) as H2.
  rewrite E in H1. rewrite <- E in H2. rewrite lt_of_Z in H1, H2.
  rewrite Z.ltb_irrefl in H1, H2.
  symmetry in H1, H2. apply Z.ltb_ge in H1, H2. lia.
Qed.

End PageFacts.

(** ** GeoJSON *)

Module GeoFacts.
Import JS Json GeoJson MoreNotions.

Lemma get_truthy (v : json) (k : string) :
  jtruthy v = true -> get v k = Ok (get_opt v k).
Proof. destruct v; try discriminate; reflexivity. Qed.

Lemma get_opt_object (v : json) (k : string) (items : list json) :
  get_opt v k = JArr items ->
  exists props, v = JObj props /\ lookup_prop k props = Some (JArr items).
Proof.
  destruct v as [| | | | | |props]; try discriminate.
  cbn [get_opt]. intros H. exists props. split; [reflexivity|].
  destruct (lookup_prop k props) as [x|]; cbn in H; [now subst | discriminate].
Qed.

(** The filter of [sanitizeGeoJSON] never throws. *)
Lemma valid_feature_ok (f : json) : valid_feature f = Ok (kept_feature f).
Proof.
  unfold kept_feature, valid_feature.
  destruct (jtruthy f) eqn:Ef; cbn [negb]; [|reflexivity].
  rewrite (get_truthy f "geometry" Ef). cbn [bind].
  destruct (jtruthy (get_opt f "geometry")) eqn:Eg; cbn [negb];
    [|reflexivity].
  now rewrite (get_truthy _ "type" Eg).
Qed.

Lemma filter_valid (fs : list json) :
  filter_result valid_feature fs = Ok (List.filter kept_feature fs).
Proof.
  induction fs as [|f fs IH]; [reflexivity|].
  cbn [filter_result List.filter]. rewrite valid_feature_ok, IH.
  reflexivity.
Qed.

Lemma filter_kept_twice (fs : list json) :
  List.filter kept_feature (List.filter kept_feature fs)
  = List.filter kept_feature fs.
Proof.
  induction fs as [|f fs IH]; [reflexivity|].
  cbn [List.filter]. destruct (kept_feature f) eqn:E; [|exact IH].
  cbn [List.filter]. now rewrite E, IH.
Qed.

Lemma filter_kept_all (fs : list json) :
  Forall (fun f => valid_feature f = Ok true) (List.filter kept_feature fs).
Proof.
  induction fs as [|f fs IH]; [constructor|].
  cbn [List.filter]. destruct (kept_feature f) eqn:E; [|exact IH].
  constructor; [|exact IH]. now rewrite valid_feature_ok, E.
Qed.

Lemma lookup_set_same (k : string) (v : json) (props : list (string * json)) :
  lookup_prop k (set_prop k v props) = Some v.
Proof.
  induction props as [|[k' v'] props IH]; cbn [set_prop lookup_prop].
  - now rewrite String.eqb_refl.
  - destruct (String.eqb k' k) eqn:E; cbn [lookup_prop].
    + now rewrite String.eqb_refl.
    + now rewrite E.
Qed.

Lemma lookup_set_other (k k0 : string) (v : json)
  (props : list (string * json)) :
  k0 <> k -> lookup_prop k0 (set_prop k v props) = lookup_prop k0 props.
Proof.
  intros Hne. induction props as [|[k' v'] props IH];
    cbn [set_prop lookup_prop].
  - now rewrite (proj2 (String.eqb_neq k k0)) by congruence.
  - destruct (String.eqb k' k) eqn:E; cbn [lookup_prop].
    + apply String.eqb_eq in E. subst k'.
      now rewrite (proj2 (String.eqb_neq k k0)) by congruence.
    + now rewrite IH.
Qed.

(** [sanitizeGeoJSON] on a collection: an object whose type is
    [FeatureCollection] and whose features are an array. *)
Lemma sanitize_collection (props : list (string * json)) (fs : list json) :
  lookup_prop "type" props = Some (JStr "FeatureCollection") ->
  lookup_prop "features" props = Some (JArr fs) ->
  sanitizeGeoJSON (JObj props)
  = Ok (let valid := List.filter kept_feature fs in
        if (length valid =? 0)%nat then JNull
        else if (length valid =? length fs)%nat then JObj props
        else JObj (set_prop "features" (JArr valid) props)).
Proof.
  intros Hty Hfs. unfold sanitizeGeoJSON. cbn [jtruthy negb get].
  rewrite Hty, Hfs.
  cbn [default id is_str String.eqb Ascii.eqb Bool.eqb bind isArray].
  rewrite filter_valid. cbn [bind]. cbv zeta.
  destruct (length (List.filter kept_feature fs) =? 0)%nat; [reflexivity|].
  now destruct (length (List.filter kept_feature fs) =? length fs)%nat.
Qed.

(** [sanitizeGeoJSON] on everything else that is truthy. *)
Lemma sanitize_single (data : json) :
  jtruthy data = true ->
  (is_str "FeatureCollection" (get_opt data "type")
   && isArray (get_opt data "features") = false) ->
  sanitizeGeoJSON data
  = Ok (if is_str "Feature" (get_opt data "type") then
          if negb (jtruthy (get_opt data "geometry"))
             || negb (has_geom_type
                        (get_opt (get_opt data "geometry") "type"))
          then JNull else data
        else if has_geom_type (get_opt data "type") then data else JNull).
Proof.
  intros Ht Hno. unfold sanitizeGeoJSON. rewrite Ht. cbn [negb].
  rewrite !(get_truthy data _ Ht). cbn [bind].
  assert (E : (if is_str "FeatureCollection" (get_opt data "type")
               then Ok (isArray (get_opt data "features"))
               else Ok false) = Ok false).
  { destruct (is_str "FeatureCollection" (get_opt data "type"));
      [|reflexivity].
    cbn [andb] in Hno. now rewrite Hno. }
  rewrite E. cbn [bind].
  destruct (is_str "Feature" (get_opt data "type"));
    [|now destruct (has_geom_type (get_opt data "type"))].
  destruct (jtruthy (get_opt data "geometry")) eqn:Eg; cbn [negb orb bind];
    [|reflexivity].
  rewrite (get_truthy _ "type" Eg). cbn [bind].
  now destruct (has_geom_type (get_opt (get_opt data "geometry") "type")).
Qed.

(** A truthy value is a collection or it is not. *)
Lemma collection_or_not (data : json) :
  (exists props fs,
     data = JObj props /\
     lookup_prop "type" props = Some (JStr "FeatureCollection") /\
     lookup_prop "features" props = Some (JArr fs)) \/
  is_str "FeatureCollection" (get_opt data "type")
  && isArray (get_opt data "features") = false.
Proof.
  destruct (is_str "FeatureCollection" (get_opt data "type")) eqn:Ety;
    [|now right].
  destruct (get_opt data "features") as [| | | | |fs|] eqn:Efs;
    try now right.
  left. destruct (get_opt_object _ _ _ Efs) as (props & -> & Hfs).
  exists props, fs. split; [reflexivity|]. split; [|assumption].
  cbn [get_opt] in Ety.
  destruct (lookup_prop "type" props) as [[| | | |t| |]|]; try discriminate.
  cbn [default is_str] in Ety. apply String.eqb_eq in Ety. now subst.
Qed.

Lemma filter_all {A} (p : A -> bool) (xs : list A) :
  length (List.filter p xs) = length xs -> List.filter p xs = xs.
Proof.
  induction xs as [|x xs IH]; [reflexivity|].
  cbn [List.filter]. destruct (p x); cbn [length]; intros H.
  - f_equal. apply IH. lia.
  - pose proof (List.filter_length_le p xs). lia.
Qed.

(** What [sanitizeGeoJSON] returns: nothing, its argument, or the
    collection it was given with the features it keeps. *)
Lemma sanitize_cases (data : json) :
  sanitizeGeoJSON data = Ok JNull \/
  (sanitizeGeoJSON data = Ok data /\ renderable data) \/
  exists props fs,
    data = JObj props /\
    lookup_prop "type" props = Some (JStr "FeatureCollection") /\
    lookup_prop "features" props = Some (JArr fs) /\
    List.filter kept_feature fs <> [] /\
    sanitizeGeoJSON data
    = Ok (JObj (set_prop "features" (JArr (List.filter kept_feature fs))
                         props)).
Proof.
  destruct (jtruthy data) eqn:Ht.
  2: { left. unfold sanitizeGeoJSON. now rewrite Ht. }
  destruct (collection_or_not data) as [(props & fs & -> & Hty & Hfs) | Hno].
  - rewrite (sanitize_collection props fs Hty Hfs). cbv zeta.
    destruct (Nat.eqb_spec (length (List.filter kept_feature fs)) 0)
      as [_ | Hne]; [now left | right].
    assert (Hnil : List.filter kept_feature fs <> []).
    { intros E. now rewrite E in Hne. }
    destruct (Nat.eqb_spec (length (List.filter kept_feature fs)) (length fs))
      as [Hall | _].
    + left. split; [reflexivity|]. left. exists fs. cbn [get].
      rewrite Hty, Hfs. repeat split.
      * intros ->. now apply Hnil.
      * rewrite <- (filter_all _ _ Hall). apply filter_kept_all.
    + right. exists props, fs. now repeat split.
  - rewrite (sanitize_single data Ht Hno).
    destruct (is_str "Feature" (get_opt data "type")) eqn:Ef.
    + destruct (jtruthy (get_opt data "geometry")) eqn:Eg; cbn [negb orb];
        [|now left].
      destruct (has_geom_type (get_opt (get_opt data "geometry") "type"))
        eqn:Egt; cbn [negb]; [right; left | now left].
      split; [reflexivity|]. right. left.
      rewrite (get_truthy data "type" Ht). split.
      * destruct (get_opt data "type") as [| | | |t| |]; try discriminate.
        cbn [is_str] in Ef. apply String.eqb_eq in Ef. now subst.
      * eexists _, _. rewrite (get_truthy data "geometry" Ht).
        split; [reflexivity|]. now rewrite (get_truthy _ "type" Eg).
    + destruct (has_geom_type (get_opt data "type")) eqn:Egt;
        [right; left | now left].
      split; [reflexivity|]. right. right. eexists.
      rewrite (get_truthy data "type" Ht). now split.
Qed.

(** [normalizeLUFull] never throws, and gives a record it leaves as it
    is. *)
Lemma normalizeLUFull_shape (val : json) :
  exists types areas : json,
    normalizeLUFull val = Ok (JObj [("types", types); ("areas", areas)]) /\
    jtruthy types = true /\ jtruthy areas = true /\
    normalizeLUFull (JObj [("types", types); ("areas", areas)])
    = Ok (JObj [("types", types); ("areas", areas)]) /\
    normalizeLU val = Ok types.
Proof.
  assert (record : forall types areas,
            jtruthy types = true -> jtruthy areas = true ->
            normalizeLUFull (JObj [("types", types); ("areas", areas)])
            = Ok (JObj [("types", types); ("areas", areas)])).
  { intros types areas Ht Ha. unfold normalizeLUFull, or_else.
    cbn. now rewrite Ht, Ha. }
  unfold normalizeLU, normalizeLUFull.
  destruct (jtruthy val) eqn:Hv; cbn [negb].
  2: { exists (JArr []), (JObj []). repeat split; try (now apply record). }
  destruct val as [| |b|x|s|items|props]; try discriminate.
  - exists (JArr []), (JObj []). repeat split; try (now apply record).
  - exists (JArr []), (JObj []). repeat split; try (now apply record).
  - exists (JArr [JStr s]), (JObj []). repeat split; try (now apply record).
  - exists (JArr items), (JObj []). repeat split; try (now apply record).
  - cbn [jis_string isArray get bind].
    set (t := default JUndefined (lookup_prop "types" props)).
    set (a := default JUndefined (lookup_prop "areas" props)).
    destruct (jtruthy t) eqn:Et.
    + exists (or_else t (JArr [])), (or_else a (JObj [])).
      assert (Ht' : jtruthy (or_else t (JArr [])) = true)
        by (unfold or_else; now rewrite Et).
      assert (Ha' : jtruthy (or_else a (JObj [])) = true)
        by (unfold or_else; now destruct (jtruthy a) eqn:Ea).
      repeat split; try assumption; try (now apply record).
    + exists (JArr []), (JObj []). repeat split; try (now apply record).
Qed.

End GeoFacts.

(** ** The survey *)

Module SurveyFacts.
Import JS Json GeoJson Survey MoreNotions GeoFacts.











End SurveyFacts.

(** ** Allocations in hundredths *)

Module MeasureFacts.
Import JS AreaUnit LandUsePopup AreaInput Notions MoreNotions.
Import TextFacts AreaFacts PopupFacts NumberFacts TripleFacts RoundTripFacts.
Import InputFacts TypedFacts SelectionFacts SaveFacts ExactFacts HandlerFacts.








End MeasureFacts.

Import AreaInput MoreNotions InputFacts TypedFacts.

(** X1: whatever is typed into a field of a row, the field then holds only
    what it accepts: digits in the rai and ngan fields; in the wah field
    digits with at most one decimal point and at most two digits after
    it. *)
Theorem handleChange_accepts (field raw : string) (st : fields) :
  accepted field (field_of field (fst (handleChange field raw st))).
Proof.
  unfold accepted, field_of.
  pose proof (wah_final_text raw st) as Hfinal.
  pose proof (keep_chars_all is_digit raw) as Hclean.
  unfold handleChange in *.
  destruct (String.eqb field "wah"); [|destruct (String.eqb field "rai")];
    assumption.
Qed.

(** X2: a text the field accepts is taken as it is typed: the field holds
    it unchanged, whatever the row held before. *)
Theorem handleChange_keeps_accepted (field s : string) (st : fields) :
  accepted field s ->
  field_of field (fst (handleChange field s st)) = s.
Proof.
  unfold accepted, field_of. intros H.
  pose proof (wah_text_kept s st) as Hwah.
  unfold handleChange in *.
  destruct (String.eqb field "wah"); [now apply Hwah|].
  destruct (String.eqb field "rai"); now apply keep_chars_id.
Qed.

Lemma handleChange_keeps_accepted_witness :
  accepted "wah" "12.5" /\
  field_of "wah" (fst (handleChange "wah" "12.5" empty_row)) = "12.5".
Proof.
  assert (H : accepted "wah" "12.5").
  { right. exists "12", "5". repeat split; cbn; lia. }
  split; [exact H|].
  exact (handleChange_keeps_accepted "wah" "12.5" empty_row H).
Defined.

(** X3: the fields of a row and the value it committed never part.  A row
    mounts on every value, and after any run of edits the committed value
    splits into exactly the three texts the fields show: bringing the
    fields back in line with that value would change nothing. *)
Theorem committed_value_splits_into_fields (v : value)
  (es : list (string * string)) :
  exists st0 : fields,
    mount v = Ok st0 /\
    parseAreaParts (committedRef (edits es st0)) = Ok (shown (edits es st0)).
Proof.
  destruct (mount_state v) as (st0 & Hmount & Hfree & Hcommitted & Hsplit).
  exists st0. split; [assumption|].
  apply edits_invariant; [assumption|]. now rewrite Hcommitted.
Qed.



Import SelectionFacts SaveFacts ExactFacts HandlerFacts.


(** X6: storage normalization is idempotent on every string without a tiny
    component: the text it gives normalizes to itself. *)
Theorem normalizeAreaStr_idempotent (s : string) :
  no_tiny s ->
  exists t : string,
    normalizeAreaStr (VStr s) = Ok t /\ normalizeAreaStr (VStr t) = Ok t.
Proof.
  intros H. exists (Spec.normalizeForStorage s).
  rewrite !normalizeAreaStr_string. split; [reflexivity|].
  f_equal. now apply normalizeForStorage_idem.
Qed.

Lemma normalizeAreaStr_idempotent_witness :
  no_tiny "01-2-3.50" /\
  exists t : string,
    normalizeAreaStr (VStr "01-2-3.50") = Ok t /\
    normalizeAreaStr (VStr t) = Ok t.
Proof.
  assert (H : no_tiny "01-2-3.50").
  { repeat split; vm_compute; reflexivity. }
  split; [exact H|]. exact (normalizeAreaStr_idempotent "01-2-3.50" H).
Defined.



(** X8: no area without its category.  When every area entry belongs to a
    selected category, it still does after [toggle] and [setPrimary] of any
    key, and after [handleAreaChange] and [autoFillRemain] of a selected
    one; and the record [handleSave] hands over then has an area only for
    keys among its types. *)
Theorem areas_belong_to_selection (st : state) :
  covered st ->
  (forall key, covered (toggle key st)) /\
  (forall key, covered (setPrimary key st)) /\
  (forall key val, In key (selected st) ->
                   covered (handleAreaChange key val st)) /\
  (forall totalArea key st',
     In key (selected st) ->
     autoFillRemain totalArea key st = Ok st' -> covered st') /\
  (forall saved,
     handleSave st = Ok saved ->
     forall k, is_Some (snd saved !! k) -> In k (fst saved)).
Proof.
  intros Hcov. repeat split.
  - intros key k. unfold toggle.
    destruct (includes (selected st) key) eqn:E; cbn [selected areas].
    + intros Hk. destruct (decide (k = key)) as [-> | Hne].
      * rewrite lookup_delete_eq in Hk. now destruct Hk.
      * rewrite lookup_delete_ne in Hk by congruence.
        apply without_In. split; [now apply Hcov | assumption].
    + intros Hk. apply in_or_app. left. now apply Hcov.
  - intros key k. unfold setPrimary.
    destruct (negb (includes (selected st) key)); cbn [selected areas];
      intros Hk; apply Hcov in Hk.
    + now right.
    + destruct (decide (k = key)) as [-> | Hne]; [now left | right].
      apply without_In. now split.
  - intros key val Hin k. unfold handleAreaChange. cbn [selected areas].
    destruct (decide (k = key)) as [-> | Hne]; [now intros _|].
    rewrite lookup_insert_ne by congruence. apply Hcov.
  - intros totalArea key st' Hin Hfill k.
    rewrite autoFillRemain_ok in Hfill. injection Hfill as <-. cbv zeta.
    match goal with
    | |- context [if ?c then _ else _] => destruct c
    end; [|apply Hcov].
    cbn [selected areas].
    destruct (decide (k = key)) as [-> | Hne]; [now intros _|].
    rewrite lookup_insert_ne by congruence. apply Hcov.
  - intros saved Hsave k [n Hk]. rewrite handleSave_reduce in Hsave.
    destruct (reduce save_step (map_to_list (areas st)) ∅)
      as [clean|e] eqn:Hred; [|discriminate].
    cbn [bind] in Hsave. injection Hsave as <-. cbn [fst snd] in *.
    destruct (reduce_save_sound _ _ _ _ _ Hred Hk)
      as [(v & Hin & _) | Hempty].
    + apply Hcov. exists v. now apply In_map_to_list.
    + now rewrite lookup_empty in Hempty.
Qed.

Lemma areas_belong_to_selection_witness :
  covered example_state /\ covered (toggle "a" example_state).
Proof.
  assert (H : covered example_state).
  { intros k [v Hk]. cbn [example_state areas selected] in *.
    destruct (decide (k = "a")) as [-> | Ha]; [now left|].
    rewrite lookup_insert_ne in Hk by congruence.
    destruct (decide (k = "b")) as [-> | Hb]; [right; now left|].
    rewrite lookup_insert_ne in Hk by congruence.
    now rewrite lookup_empty in Hk. }
  split; [exact H|].
  exact (proj1 (areas_belong_to_selection example_state H) "a").
Defined.



(** X10: [toggle] changes the membership of its key and of no other.  The
    key is selected afterwards exactly when it was not before; every other
    key keeps its membership and its area entry; and a selection without
    repeats stays without repeats. *)
Theorem toggle_changes_one_key (key : string) (st : state) :
  includes (selected (toggle key st)) key
  = negb (includes (selected st) key) /\
  (forall k, k <> key ->
     includes (selected (toggle key st)) k = includes (selected st) k /\
     areas (toggle key st) !! k = areas st !! k) /\
  (List.NoDup (selected st) -> List.NoDup (selected (toggle key st))).
Proof.
  unfold toggle. destruct (includes (selected st) key) eqn:E;
    cbn [selected areas negb].
  - split; [|split].
    + rewrite includes_without, String.eqb_refl. apply andb_false_r.
    + intros k Hne. split.
      * rewrite includes_without.
        rewrite (proj2 (String.eqb_neq k key) Hne). apply andb_true_r.
      * apply lookup_delete_ne. congruence.
    + apply without_NoDup.
  - split; [|split].
    + rewrite includes_app, String.eqb_refl. apply orb_true_r.
    + intros k Hne. split; [|reflexivity].
      rewrite includes_app.
      rewrite (proj2 (String.eqb_neq k key) Hne). apply orb_false_r.
    + intros Hnd. apply NoDup_ListNoDup, NoDup_app.
      split; [now apply NoDup_ListNoDup|]. split.
      * intros k Hk Hk'. apply list_elem_of_In in Hk.
        apply list_elem_of_singleton in Hk'. subst k.
        apply includes_false in E. contradiction.
      * apply NoDup_singleton.
Qed.

Lemma toggle_changes_one_key_witness :
  "b" <> "a" /\
  includes (selected (toggle "a" example_state)) "b"
  = includes (selected example_state) "b" /\
  areas (toggle "a" example_state) !! "b" = areas example_state !! "b".
Proof.
  assert (H : "b" <> "a") by discriminate.
  split; [exact H|].
  exact (proj1 (proj2 (toggle_changes_one_key "a" example_state)) "b" H).
Defined.



(** X12: saving what was saved changes nothing.  When [handleSave] hands
    over a record and no string among the areas has a tiny component, the
    editor opened again on that record hands over the same record. *)
Theorem resave_is_identity (st : state)
  (saved : list string * gmap string string) :
  handleSave st = Ok saved ->
  (forall k s, areas st !! k = Some (VStr s) -> no_tiny s) ->
  handleSave (reopened saved) = Ok saved.
Proof.
  intros Hsave Hsize.
  destruct (proj2 (handleSave_cases st) saved Hsave)
    as [Hsel Hclean].
  assert (Hfixed : forall k n, snd saved !! k = Some n ->
                               normalizeAreaStr (VStr n) = Ok n /\ n <> "").
  { intros k n Hk. apply Hclean in Hk as (v & Hv & Hn & Hne).
    split; [|assumption].
    destruct (saved_text_origin v n Hn Hne) as (s & -> & ->).
    rewrite normalizeAreaStr_string. f_equal.
    apply normalizeForStorage_idem. now apply (Hsize k). }
  destruct (handleSave_ok (reopened saved)) as (clean' & Hsave' & Hclean').
  { intros k v Hk. right. unfold reopened in Hk. cbn [areas] in Hk.
    rewrite lookup_fmap in Hk. destruct (snd saved !! k); [|discriminate].
    cbn in Hk. now injection Hk as <-. }
  rewrite Hsave'. destruct saved as [types clean]. cbn [fst snd] in *.
  unfold reopened. cbn [selected fst]. do 2 f_equal.
  apply map_eq. intros k. apply option_eq. intros n.
  rewrite Hclean'. unfold reopened. cbn [areas snd]. split.
  - intros (v & Hv & Hn & Hne). rewrite lookup_fmap in Hv.
    destruct (clean !! k) as [n0|] eqn:Ek; [|discriminate].
    cbn in Hv. injection Hv as <-.
    destruct (Hfixed k n0 Ek) as [Hn0 _]. congruence.
  - intros Hk. exists (VStr n). rewrite lookup_fmap, Hk.
    split; [reflexivity|]. now apply (Hfixed k).
Qed.

Lemma resave_is_identity_witness :
  handleSave
    (reopened (["a"; "b"], <["a" := "5-0-0"]> (<["b" := "3-0-0"]> ∅)))
  = Ok (["a"; "b"], <["a" := "5-0-0"]> (<["b" := "3-0-0"]> ∅)).
Proof.
  apply (resave_is_identity example_state).
  - vm_compute. reflexivity.
  - intros k s Hk. cbn [example_state areas] in Hk.
    destruct (decide (k = "a")) as [-> | Ha].
    + rewrite lookup_insert_eq in Hk. injection Hk as <-.
      repeat split; vm_compute; reflexivity.
    + rewrite lookup_insert_ne in Hk by congruence.
      destruct (decide (k = "b")) as [-> | Hb].
      * rewrite lookup_insert_eq in Hk. injection Hk as <-.
        repeat split; vm_compute; reflexivity.
      * rewrite lookup_insert_ne in Hk by congruence.
        now rewrite lookup_empty in Hk.
Defined.

Import Json Layers LayerFacts.

(** X13: [moveLayer] never loses or repeats a layer: it leaves the layers
    as they are, or exchanges two layers next to each other; either way the
    layers afterwards are a rearrangement of the layers before, and the
    table stays on the layer it was on. *)
Theorem moveLayer_exchanges_neighbours (target : Z) (direction : string)
  (v : view) :
  (geojsonLayers (moveLayer target direction v) = geojsonLayers v \/
   exists pre a b post,
     geojsonLayers v = pre ++ a :: b :: post /\
     geojsonLayers (moveLayer target direction v) = pre ++ b :: a :: post) /\
  Permutation (geojsonLayers (moveLayer target direction v))
              (geojsonLayers v) /\
  tableLayerId (moveLayer target direction v) = tableLayerId v.
Proof.
  pose proof (moveLayer_cases target direction v) as Hcases.
  split; [assumption|]. split; [|reflexivity].
  destruct Hcases as [-> | (pre & a & b & post & -> & ->)]; [reflexivity|].
  apply Permutation_app_head, perm_swap.
Qed.

(** X14: moving a layer up and then down brings every layer back to its
    place, when the layer of the identifier is not the first one; moving it
    down and then up does, when it is not the last one and the identifiers
    of the layers are distinct. *)
Theorem moveLayer_there_and_back (target : Z) (v : view) :
  let idx := findIndex (has_id target) (geojsonLayers v) in
  (0 < idx ->
   geojsonLayers (moveLayer target "down" (moveLayer target "up" v))
   = geojsonLayers v) /\
  (List.NoDup (map id (geojsonLayers v)) ->
   0 <= idx < Z.of_nat (length (geojsonLayers v)) - 1 ->
   geojsonLayers (moveLayer target "up" (moveLayer target "down" v))
   = geojsonLayers v).
Proof.
  cbv zeta.
  destruct (first_or_none (has_id target) (geojsonLayers v))
    as [Hnone | (pre & x & post & Hprev & Hpre & Hx)].
  - rewrite (findIndex_none _ _ Hnone). split; intros; lia.
  - rewrite Hprev, (findIndex_first _ pre x post Hpre Hx). split.
    + intros Hidx.
      destruct (last_cases pre) as [-> | (pre' & y & ->)]; [cbn in Hidx; lia|].
      apply Forall_app in Hpre as [Hpre' Hy].
      rewrite <- app_assoc in *. cbn [app] in *.
      apply moved_down; [reflexivity | | assumption | assumption].
      apply moved_up; try assumption. now inversion Hy.
    + intros Hnd Hidx. rewrite List.length_app in Hidx. cbn [length] in Hidx.
      destruct post as [|z post]; [cbn [length] in Hidx; lia|].
      apply moved_up; [| assumption | | assumption].
      * now apply moved_down.
      * rewrite map_app in Hnd. cbn [map] in Hnd.
        apply List.NoDup_remove_2 in Hnd.
        unfold has_id in *. apply Z.eqb_eq in Hx.
        apply Z.eqb_neq. intros Hz. apply Hnd.
        apply in_or_app. right. left. congruence.
Qed.

Lemma moveLayer_there_and_back_witness :
  geojsonLayers (moveLayer 2 "down" (moveLayer 2 "up" three_layers))
  = geojsonLayers three_layers.
Proof.
  apply (proj1 (moveLayer_there_and_back 2 three_layers)).
  vm_compute. reflexivity.
Defined.

(** X15: [toggleLayerVisibility] touches nothing but the visibility of the
    layers of the identifier: the layers keep their order and all their
    other fields, the visibility of a layer is the other one exactly when
    it has the identifier, and toggling twice gives back the layers. *)
Theorem toggleLayerVisibility_flips (target : Z) (v : view) :
  Forall2 (fun l l' => same_but_visible (has_id target l) l l')
          (geojsonLayers v)
          (geojsonLayers (toggleLayerVisibility target v)) /\
  geojsonLayers (toggleLayerVisibility target
                   (toggleLayerVisibility target v))
  = geojsonLayers v.
Proof.
  unfold toggleLayerVisibility. cbn [geojsonLayers]. split.
  - induction (geojsonLayers v) as [|l ls IH]; [constructor|].
    cbn [map]. constructor; [|exact IH].
    unfold same_but_visible. destruct (has_id target l); now repeat split.
  - rewrite map_map. rewrite <- (map_id (geojsonLayers v)) at 2.
    apply map_ext. intros l. apply (toggle_twice target l).
Qed.



Import AttributeTable PageFacts.

(** X17: the pages of the attribute table are the rows, each row once and
    in order: [totalPages] is a whole number, at least 1, and the pages
    from 0 up to it, one after the other, give back the rows. *)
Theorem pages_cover_the_rows {A} (sorted : list A) :
  exists n : nat,
    totalPages sorted = of_Z (Z.of_nat n) /\ (1 <= n)%nat /\
    concat (map (fun p => paged sorted (of_Z (Z.of_nat p))) (seq 0 n))
    = sorted.
Proof.
  destruct (totalPages_value sorted) as (n & Hn & Hone & Hroom & _).
  exists (Z.to_nat n). rewrite Z2Nat.id by lia.
  split; [assumption|]. split; [lia|].
  rewrite (map_ext _ (fun p => take 50 (drop (50 * p) sorted))).
  - rewrite concat_pages. apply take_ge. lia.
  - intros p. rewrite paged_of_Z by lia. do 2 f_equal. lia.
Qed.

(** X18: a row shown on a page is the row of its global number.  The row
    [idx] of the page [p] is one of at most fifty, it is the row
    [50 p + idx] of the rows, which is what [globalIdx] computes, and the
    page is below [totalPages]. *)
Theorem page_row_is_global_row {A} (sorted : list A) (p : Z) (idx : nat)
  (x : A) :
  0 <= p ->
  paged sorted (of_Z p) !! idx = Some x ->
  (idx < 50)%nat /\
  globalIdx (of_Z p) (Z.of_nat idx) = of_Z (50 * p + Z.of_nat idx) /\
  sorted !! Z.to_nat (50 * p + Z.of_nat idx) = Some x /\
  lt (of_Z p) (totalPages sorted) = true.
Proof.
  intros Hp Hrow. rewrite paged_of_Z in Hrow by assumption.
  apply lookup_take_Some in Hrow as [Hrow Hidx].
  rewrite lookup_drop in Hrow.
  split; [assumption|]. split.
  - unfold globalIdx, PAGE_SIZE. rewrite mul_of_Z_Z, add_of_Z. f_equal. lia.
  - split.
    + rewrite <- Hrow. f_equal. lia.
    + destruct (totalPages_value sorted) as (n & -> & _ & Hroom & _).
      rewrite lt_of_Z. apply Z.ltb_lt.
      apply lookup_lt_Some in Hrow. lia.
Qed.

Lemma page_row_is_global_row_witness :
  (1 < 50)%nat /\
  globalIdx (of_Z 0) (Z.of_nat 1) = of_Z (50 * 0 + Z.of_nat 1) /\
  ["a"; "b"] !! Z.to_nat (50 * 0 + Z.of_nat 1) = Some "b" /\
  lt (of_Z 0) (totalPages ["a"; "b"]) = true.
Proof.
  apply (page_row_is_global_row ["a"; "b"] 0 1 "b"); [lia | reflexivity].
Defined.

(** X19: the four buttons under the table keep the page among the pages:
    from a page that is one of the pages of the rows, the first, previous,
    next and last page are pages of the rows too.  The previous page is the
    page before, or page 0 itself; the next page is the page after whenever
    that is a page of the rows. *)
Theorem page_buttons_stay_in_range {A} (sorted : list A) (p : Z) :
  in_range sorted (of_Z p) ->
  in_range sorted firstPage /\
  in_range sorted (prevPage (of_Z p)) /\
  in_range sorted (nextPage sorted (of_Z p)) /\
  in_range sorted (lastPage sorted) /\
  prevPage (of_Z p) = of_Z (Z.max 0 (p - 1)) /\
  (in_range sorted (of_Z (p + 1)) ->
   nextPage sorted (of_Z p) = of_Z (p + 1)).
Proof.
  intros (p' & E & Hp & Hlt). apply of_Z_inj in E. subst p'.
  unfold in_range, firstPage, prevPage, nextPage, lastPage.
  destruct (totalPages_value sorted) as (n & Hn & Hone & _ & _).
  rewrite Hn in *. rewrite lt_of_Z in Hlt. apply Z.ltb_lt in Hlt.
  rewrite !sub_of_Z, add_of_Z, Math_max_of_Z, Math_min_of_Z.
  split; [|split; [|split; [|split; [|split]]]].
  - exists 0. rewrite lt_of_Z. repeat split; [lia|]. apply Z.ltb_lt. lia.
  - exists (Z.max 0 (p - 1)). rewrite lt_of_Z.
    repeat split; [lia|]. apply Z.ltb_lt. lia.
  - exists (Z.min (n - 1) (p + 1)). rewrite lt_of_Z.
    repeat split; [lia|]. apply Z.ltb_lt. lia.
  - exists (n - 1). rewrite lt_of_Z. repeat split; [lia|].
    apply Z.ltb_lt. lia.
  - reflexivity.
  - intros (q & E & _ & Hq). rewrite lt_of_Z in Hq.
    apply Z.ltb_lt in Hq. f_equal. lia.
Qed.

Lemma page_buttons_stay_in_range_witness :
  in_range ["a"; "b"] (of_Z 0) /\ in_range ["a"; "b"] (prevPage (of_Z 0)).
Proof.
  assert (H : in_range ["a"; "b"] (of_Z 0)).
  { exists 0. split; [reflexivity|]. split; [lia | reflexivity]. }
  split; [exact H|].
  exact (proj1 (proj2 (page_buttons_stay_in_range ["a"; "b"] 0 H))).
Defined.

Import GeoJson GeoFacts.

(** X20: [sanitizeGeoJSON] never throws and is idempotent: on every value
    it returns, and what it returns it returns unchanged when given it
    again. *)
Theorem sanitizeGeoJSON_idempotent (data : json) :
  exists r : json,
    sanitizeGeoJSON data = Ok r /\ sanitizeGeoJSON r = Ok r.
Proof.
  destruct (sanitize_cases data)
    as [Hnull | [[Hsame _] | (props & fs & -> & Hty & Hfs & Hne & Hcut)]].
  - exists JNull. now split.
  - exists data. now split.
  - eexists. split; [exact Hcut|].
    rewrite (sanitize_collection _ (List.filter kept_feature fs)).
    + cbv zeta. rewrite filter_kept_twice, Nat.eqb_refl.
      destruct (List.filter kept_feature fs); [contradiction | reflexivity].
    + now rewrite lookup_set_other.
    + apply lookup_set_same.
Qed.

(** X21: what [sanitizeGeoJSON] returns is nothing or can be drawn: a
    collection of at least one feature, every one with a geometry of a
    valid type; or a feature with such a geometry; or a geometry of a valid
    type. *)
Theorem sanitized_is_renderable (data r : json) :
  sanitizeGeoJSON data = Ok r -> r = JNull \/ renderable r.
Proof.
  intros Hr.
  destruct (sanitize_cases data)
    as [Hnull | [[Hsame Hdraw] | (props & fs & -> & Hty & Hfs & Hne & Hcut)]].
  - left. congruence.
  - right. congruence.
  - right. rewrite Hcut in Hr. injection Hr as <-. left.
    exists (List.filter kept_feature fs). cbn [get].
    rewrite lookup_set_same, lookup_set_other, Hty by discriminate.
    repeat split; [assumption | apply filter_kept_all].
Qed.

Lemma sanitized_is_renderable_witness :
  point_feature = JNull \/ renderable point_feature.
Proof.
  apply (sanitized_is_renderable point_feature point_feature).
  reflexivity.
Defined.

(** X22: [normalizeLUFull] never throws and always gives a record of two
    truthy fields, the types and the areas; it is idempotent on its
    results, and [normalizeLU] gives the types of that record. *)
Theorem normalizeLUFull_gives_a_record (val : json) :
  exists types areas : json,
    normalizeLUFull val = Ok (JObj [("types", types); ("areas", areas)]) /\
    jtruthy types = true /\ jtruthy areas = true /\
    normalizeLUFull (JObj [("types", types); ("areas", areas)])
    = Ok (JObj [("types", types); ("areas", areas)]) /\
    normalizeLU val = Ok types.
Proof. apply normalizeLUFull_shape. Qed.

Import Survey SurveyFacts.


Import MeasureFacts.







(** X27: splitting, joining and splitting again gives the same parts.
    [parseAreaParts] returns on every value, and the three parts it gives,
    joined by [partsToStr], split into themselves. *)
Theorem split_join_split (v : value) :
  exists p : parts,
    parseAreaParts v = Ok p /\
    parseAreaParts (VStr (partsToStr (rai p) (ngan p) (wah p))) = Ok p.
Proof.
  destruct (parseAreaParts_no_dash v) as (p & Hp & Hr & Hn & Hw).
  exists p. split; [assumption|].
  rewrite (parseAreaParts_joined _ _ _ Hr Hn Hw). now destruct p.
Qed.
